(** * DICOM header repair: the repair pipeline of the notebook
    [Notebooks/DICOM Issue analysis.ipynb]

    The notebook scans a directory of DICOM files, applies an ordered list of
    repair functions to the header of each one and saves the result under a
    name derived from the header.  This development embeds the notebook's
    functions (same names, same control flow) and states the properties of
    the pipeline over that embedding.

    Conventions of the embedding
    - a [pydicom.Dataset] is a finite map from element keywords to values;
    - a Python variable that may hold [None] has an [option] type;
    - everything observable (status messages, files opened by
      [pydicom.dcmread], files written by [Dataset.save_as]) is recorded as
      an event of a trace; a computation returns its trace and either a
      value or the exception it raised;
    - the file system is the list of its entries, each under the path that
      names it: a run lists and reads the file system as it finds it, and
      the files it writes are the [SaveAs] events of its trace. *)

From Stdlib Require Import String Ascii List Bool.
From stdpp Require Import base gmap strings list fin_maps.


(** ** Python strings *)

(** [s.startswith(p)] *)
Fixpoint startswith (s p : string) {struct p} : bool :=
  match p, s with
  | EmptyString, _ => true
  | String _ _, EmptyString => false
  | String c p', String d s' => if decide (c = d) then startswith s' p' else false
  end.

(** [sub in s] for two [str] values: [sub] occurs somewhere in [s]. *)
Fixpoint str_in (sub s : string) : bool :=
  startswith s sub ||
  match s with
  | EmptyString => false
  | String _ s' => str_in sub s'
  end.

(** The two characters the messages need and a literal cannot hold. *)
Definition tab : string := String (ascii_of_nat 9) EmptyString.
Definition dquote : string := String (ascii_of_nat 34) EmptyString.

(** [''.join(parts)] *)
Definition join (parts : list string) : string :=
  foldr String.app EmptyString parts.

(** ** Datasets *)

(** The value of a data element.  The elements whose value the notebook reads
    (BodyPartExamined, OtherPatientIDs, Modality, InstitutionAddress,
    SOPInstanceUID) have text value representations: pydicom gives such an
    element a [str] or, when the stored text holds several values, a
    [MultiValue], which is a list of [str] and not a [str] itself:
    [VMulti items text] is that list, and [text] is what [str] and
    [str.format] make of it.  [VOther] stands for a value without text (a
    number such as KVP, the [None] of a missing value), on which the string
    operations of the notebook raise; the value of an element that is only
    tested for presence is left as [VOther] too. *)
Inductive value :=
  | VStr (s : string)
  | VMulti (items : list string) (text : string)
  | VOther.

#[global] Instance value_eq_dec : EqDecision value.
Proof. solve_decision. Defined.

(** A dataset, keyed by element keyword. *)
Abbreviation Dataset := (gmap string value).

(** ** Exceptions, events and the trace monad *)

Inductive exn :=
  | InvalidDicomError
  | FileNotFoundError
  | PermissionError
  | IsADirectoryError
  | OSError   (* the refusal of the operating system to open a file for writing *)
  | KeyError
  | TypeError
  | AttributeError.

#[global] Instance exn_eq_dec : EqDecision exn.
Proof. solve_decision. Defined.

(** A path is the list of its components, from the root of the file system;
    [name] is [Path.name] and [parent] is [Path.parent]. *)
Definition path : Type := list string.

Definition name (p : path) : string := default EmptyString (last p).

Definition parent (p : path) : path := removelast p.

Inductive event :=
  | Status (message : string)                      (* status_output(message) *)
  | Dcmread (file_path : path)                     (* pydicom.dcmread(file_path) *)
  | SaveAs (file_path : path) (dataset : Dataset). (* dataset.save_as(file_path) *)

#[global] Instance event_eq_dec : EqDecision event.
Proof. solve_decision. Defined.

Inductive outcome (A : Type) :=
  | Ok (a : A)
  | Raise (e : exn).
Arguments Ok {A} a.
Arguments Raise {A} e.

#[global] Instance outcome_eq_dec {A} `{EqDecision A} : EqDecision (outcome A).
Proof. solve_decision. Defined.

Definition M (A : Type) : Type := list event * outcome A.

Definition ret {A} (a : A) : M A := ([], Ok a).

Definition raise {A} (e : exn) : M A := ([], Raise e).

Definition emit (ev : event) : M unit := ([ev], Ok tt).

Definition bind {A B} (m : M A) (k : A → M B) : M B :=
  match m with
  | (t1, Ok a) => let '(t2, r) := k a in (t1 ++ t2, r)
  | (t1, Raise e) => (t1, Raise e)
  end.

Notation "'let*' x := m 'in' k" := (bind m (fun x => k))
  (at level 10, x name, m at level 100, k at level 200).
Notation "m ;;; k" := (bind m (fun _ => k))
  (at level 100, k at level 200, right associativity).

(** [for x in l: body(x)] *)
Fixpoint for_each {A} (l : list A) (body : A → M unit) : M unit :=
  match l with
  | [] => ret tt
  | x :: l' => body x ;;; for_each l' body
  end.

(** Projections of a trace: the lines received by the status sink, the files
    opened and the files written, each in order. *)
Definition repair_log (tr : list event) : list string :=
  omap (λ ev, match ev with Status m => Some m | _ => None end) tr.

Definition files_read (tr : list event) : list path :=
  omap (λ ev, match ev with Dcmread p => Some p | _ => None end) tr.

Definition files_saved (tr : list event) : list (path * Dataset) :=
  omap (λ ev, match ev with SaveAs p ds => Some (p, ds) | _ => None end) tr.

(** The content of the output location after the writes of a trace, starting
    from the content [out]: [save_as] creates or overwrites. *)
Definition write_all (out : gmap path Dataset) (tr : list event) : gmap path Dataset :=
  foldl (λ o w, <[w.1 := w.2]> o) out (files_saved tr).

(** ** The file system *)

(** What [pydicom.dcmread] makes of a regular file: a dataset, a file that is
    not in the DICOM format, or a file that the process may not open. *)
Inductive file_content :=
  | Dicom (ds : Dataset)
  | NotDicom
  | Unreadable.

(** An entry is a regular file, a directory, or a directory in which the
    process may not create a file. *)
Inductive entry :=
  | EFile (c : file_content)
  | EDir
  | ELocked.

#[global] Instance file_content_eq_dec : EqDecision file_content.
Proof. solve_decision. Defined.

#[global] Instance entry_eq_dec : EqDecision entry.
Proof. solve_decision. Defined.

(** The entries of the file system, in the order the system enumerates them. *)
Definition filesystem : Type := list (path * entry).

Fixpoint stat (fs : filesystem) (p : path) : option entry :=
  match fs with
  | [] => None
  | (q, e) :: fs' => if decide (p = q) then Some e else stat fs' p
  end.

(** [p.is_file()] *)
Definition is_file (fs : filesystem) (p : path) : bool :=
  match stat fs p with
  | Some (EFile _) => true
  | _ => false
  end.

(** [pydicom.dcmread(file_path)] *)
Definition dcmread (fs : filesystem) (file_path : path) : M Dataset :=
  emit (Dcmread file_path) ;;;
  match stat fs file_path with
  | Some (EFile (Dicom ds)) => ret ds
  | Some (EFile NotDicom) => raise InvalidDicomError
  | Some (EFile Unreadable) => raise PermissionError
  | Some EDir | Some ELocked => raise IsADirectoryError
  | None => raise FileNotFoundError
  end.

(** The two patterns the scanner passes to [Path.glob]. *)
Inductive scan_pattern :=
  | AllBelow    (* '**/*' : every entry below the directory, at any depth *)
  | TopDotted.  (* '*.*'  : entries of the directory whose name has a dot  *)

(** [p] relative to [root], when [p] is [root] or below it. *)
Fixpoint relative_to (root p : path) : option path :=
  match root, p with
  | [], _ => Some p
  | r :: root', c :: p' => if decide (r = c) then relative_to root' p' else None
  | _ :: _, [] => None
  end.

Definition matches (root : path) (pat : scan_pattern) (p : path) : bool :=
  match relative_to root p, pat with
  | Some (_ :: _), AllBelow => true
  | Some [n], TopDotted => str_in "." n
  | _, _ => false
  end.

(** [data_path.glob(pattern)] *)
Definition glob (fs : filesystem) (data_path : path) (pat : scan_pattern) : list path :=
  List.filter (matches data_path pat) (fs.*1).

(** ** The notebook's functions *)

(** [status_output(message)]: the message is appended to the repair log. *)
Definition status_output (message : string) : M unit := emit (Status message).

(** [try: m except InvalidDicomError: handler] *)
Definition except_InvalidDicomError {A} (m : M A) (handler : M A) : M A :=
  match m with
  | (t1, Raise InvalidDicomError) => let '(t2, r) := handler in (t1 ++ t2, r)
  | _ => m
  end.

(** [load_header(file_path, status_output)] *)
Definition load_header (fs : filesystem) (file_path : path) : M (option Dataset) :=
  except_InvalidDicomError
    (let* dataset := dcmread fs file_path in ret (Some dataset))
    (status_output (name file_path +:+ " did not contain valid DICOM data.  Skipped.") ;;;
     ret None).

(** The truth value of [dataset] in [if dataset:].  [None] is false, and a
    [pydicom.Dataset] has a length (its number of elements) and no truth
    method of its own, so it is true when it has an element. *)
Definition truthy (dataset : option Dataset) : bool :=
  match dataset with
  | None => false
  | Some ds => negb (Nat.eqb (size ds) 0)
  end.

(** The body of the loop of [get_dicom_images] for one entry of the listing.
    [get_dicom_images] is a generator driven by a [for] loop; [body] is the
    body of that loop, which runs at each [yield], before the generator
    resumes with the next entry. *)
Definition check_file (fs : filesystem) (body : Dataset → M unit) (dicom_file : path)
    : M unit :=
  if is_file fs dicom_file then
    status_output ("Checking file " +:+ name dicom_file) ;;;
    let* dataset := load_header fs dicom_file in
    match dataset with
    | Some ds => if truthy dataset then body ds else ret tt
    | None => ret tt
    end
  else ret tt.

(** [for dataset in get_dicom_images(data_path, status_output,
    include_subdirectories): body(dataset)] *)
Definition get_dicom_images (fs : filesystem) (data_path : path)
    (include_subdirectories : bool) (body : Dataset → M unit) : M unit :=
  let pat := if include_subdirectories then AllBelow else TopDotted in
  for_each (glob fs data_path pat) (check_file fs body).

(** [dataset.data_element(keyword).value]: the lookup raises [KeyError] when
    the dataset has no such element. *)
Definition data_element_value (ds : Dataset) (keyword : string) : M value :=
  match ds !! keyword with
  | Some v => ret v
  | None => raise KeyError
  end.

(** An operand of [''.join]: anything but a [str] raises [TypeError]. *)
Definition str_item (v : value) : M string :=
  match v with
  | VStr s => ret s
  | VMulti _ _ | VOther => raise TypeError
  end.

(** [build_dicom_file_name(dataset)] *)
Definition build_dicom_file_name (ds : Dataset) : M string :=
  let* modality := data_element_value ds "Modality" in
  let* instance_uid := data_element_value ds "SOPInstanceUID" in
  let* m := str_item modality in
  let* u := str_item instance_uid in
  ret (join [m; u; ".dcm"]).

(** [s.split(sep)] for a one-character [sep]. *)
Fixpoint split_on (sep : ascii) (s : string) : list string :=
  match s with
  | EmptyString => [EmptyString]
  | String c s' =>
      if decide (c = sep) then EmptyString :: split_on sep s'
      else match split_on sep s' with
           | [] => [String c EmptyString]
           | w :: ws => String c w :: ws
           end
  end.

(** The components [pathlib] reads in a text: the text is cut at every "/",
    and the empty pieces and the pieces "." are dropped. *)
Definition parts (s : string) : list string :=
  List.filter (λ c, negb (bool_decide (c = EmptyString)) && negb (bool_decide (c = ".")))
    (split_on "/" s).

(** [p / s], as a POSIX path: the components of the text [s] below [p], or
    from the root, without [p], when [s] starts with "/". *)
Definition joinpath (p : path) (s : string) : path :=
  if startswith s "/" then parts s else p ++ parts s.

(** Whether [open(file_path, 'wb')] succeeds: a regular file that may be
    opened is overwritten; a file is created where there is none, in a
    directory that exists and takes new files. *)
Definition writable (fs : filesystem) (file_path : path) : bool :=
  match stat fs file_path with
  | Some (EFile Unreadable) => false
  | Some (EFile _) => true
  | Some EDir | Some ELocked => false
  | None => bool_decide (stat fs (parent file_path) = Some EDir)
  end.

(** [dataset.save_as(file_path)]: the event is the file written.  A run
    creates and overwrites regular files only, which changes no answer of
    [writable] (lemma [writable_write]): [fs] is the file system as the run
    found it. *)
Definition save_as (fs : filesystem) (ds : Dataset) (file_path : path) : M unit :=
  if writable fs file_path then emit (SaveAs file_path ds) else raise OSError.

(** The file system after [dataset.save_as(file_path)]: the file is
    overwritten where it is listed, and listed last when it is new. *)
Fixpoint write (fs : filesystem) (p : path) (ds : Dataset) : filesystem :=
  match fs with
  | [] => [(p, EFile (Dicom ds))]
  | (q, e) :: fs' =>
      if decide (p = q) then (q, EFile (Dicom ds)) :: fs'
      else (q, e) :: write fs' p ds
  end.

(** The file system after the writes of a trace, in their order. *)
Definition disk_after (fs : filesystem) (tr : list event) : filesystem :=
  foldl (λ fs w, write fs w.1 w.2) fs (files_saved tr).

(** [save_dicom_dataset(dataset, output_path)] *)
Definition save_dicom_dataset (fs : filesystem) (ds : Dataset) (output_path : path)
    : M unit :=
  let* output_file_name := build_dicom_file_name ds in
  let output_file_path := joinpath output_path output_file_name in
  save_as fs ds output_file_path.

(** A repair function takes the value of the variable [dataset], which is a
    dataset or [None], and returns a dataset or [None]. *)
Definition repair_method : Type := option Dataset → M (option Dataset).

(** The inner loop of [perform_repairs]:
    [for repair_method in repair_methods:
         dataset = repair_method(dataset, status_output)
         if dataset:
             save_dicom_dataset(dataset, output_path)] *)
Fixpoint apply_repairs (fs : filesystem) (repair_methods : list repair_method)
    (output_path : path) (dataset : option Dataset) : M (option Dataset) :=
  match repair_methods with
  | [] => ret dataset
  | method :: rest =>
      let* dataset := method dataset in
      (match dataset with
       | Some ds => if truthy dataset then save_dicom_dataset fs ds output_path else ret tt
       | None => ret tt
       end) ;;;
      apply_repairs fs rest output_path dataset
  end.

(** [perform_repairs(input_path, output_path, repair_methods, status_output)],
    on the file system [fs] as the run finds it. *)
Definition perform_repairs (fs : filesystem) (input_path output_path : path)
    (repair_methods : list repair_method) : M unit :=
  get_dicom_images fs input_path true (λ dataset,
    apply_repairs fs repair_methods output_path (Some dataset) ;;; ret tt).

(** ** The repair functions *)

(** [keyword in dataset]: [None] is not a container and raises [TypeError]. *)
Definition in_dataset (keyword : string) (dataset : option Dataset) : M bool :=
  match dataset with
  | None => raise TypeError
  | Some ds => ret (bool_decide (is_Some (ds !! keyword)))
  end.

(** [data_element.value = v] *)
Definition set_value (ds : Dataset) (keyword : string) (v : value) : Dataset :=
  <[keyword := v]> ds.

Definition invalid_character_message (element_name : string) : string :=
  join ["Invalid Character found in element "; element_name; ".";
        tab; "Replaced with blank string."].

(** The body of the loop of [fix_invalid_characters] for one element name.
    Only a [str] has the method [startswith]: on a [MultiValue], as on a
    value without text, the call raises [AttributeError]. *)
Definition fix_invalid_element (element_name : string) (dataset : option Dataset)
    : M (option Dataset) :=
  let* present := in_dataset element_name dataset in
  match dataset with
  | Some ds =>
      if present then
        let* v := data_element_value ds element_name in
        match v with
        | VStr s =>
            if startswith s "/" then
              status_output (invalid_character_message element_name) ;;;
              ret (Some (set_value ds element_name (VStr EmptyString)))
            else ret dataset
        | VMulti _ _ | VOther => raise AttributeError
        end
      else ret dataset
  | None => ret dataset
  end.

Fixpoint fix_invalid_elements (data_elements : list string) (dataset : option Dataset)
    : M (option Dataset) :=
  match data_elements with
  | [] => ret dataset
  | element_name :: rest =>
      let* dataset := fix_invalid_element element_name dataset in
      fix_invalid_elements rest dataset
  end.

(** [fix_invalid_characters(dataset, status_output)] *)
Definition fix_invalid_characters : repair_method := λ dataset,
  let data_elements := ["BodyPartExamined"; "OtherPatientIDs"] in
  fix_invalid_elements data_elements dataset.

Definition modality_message (old_modality new_modality : string) : string :=
  join ["Incorrect Modality found."; tab; "Modality changed from ";
        dquote; old_modality; dquote; " to "; dquote; new_modality; dquote].

(** [fix_incorrect_modality(dataset, status_output)].  The variable
    [modality] is read once, before both checks.  The test
    [sub not in modality] looks for a substring in a [str] and for an equal
    item in a [MultiValue]; on a value that is not a container it raises
    [TypeError]. *)
Definition fix_incorrect_modality : repair_method := λ dataset,
  let* has_modality := in_dataset "Modality" dataset in
  match dataset with
  | None => ret None
  | Some ds =>
      if negb has_modality then
        status_output "Modality element not found. File not used." ;;;
        ret None
      else
        let* modality := data_element_value ds "Modality" in
        (* Identify CT images *)
        let* ds :=
          if bool_decide (is_Some (ds !! "KVP")) then
            match modality with
            | VStr old_modality =>
                if negb (str_in "CT" old_modality) then
                  status_output (modality_message old_modality "CT") ;;;
                  ret (set_value ds "Modality" (VStr "CT"))
                else ret ds
            | VMulti items old_modality =>
                if negb (bool_decide ("CT" ∈ items)) then
                  status_output (modality_message old_modality "CT") ;;;
                  ret (set_value ds "Modality" (VStr "CT"))
                else ret ds
            | VOther => raise TypeError
            end
          else ret ds in
        (* Identify PET images *)
        let* ds :=
          if bool_decide (is_Some (ds !! "RadiopharmaceuticalInformationSequence")) then
            match modality with
            | VStr old_modality =>
                if negb (str_in "PT" old_modality) then
                  status_output (modality_message old_modality "PT") ;;;
                  ret (set_value ds "Modality" (VStr "PT"))
                else ret ds
            | VMulti items old_modality =>
                if negb (bool_decide ("PT" ∈ items)) then
                  status_output (modality_message old_modality "PT") ;;;
                  ret (set_value ds "Modality" (VStr "PT"))
                else ret ds
            | VOther => raise TypeError
            end
          else ret ds in
        ret (Some ds)
  end.

Definition address_message (address : string) : string :=
  join ["Mismatched Institution Addresses Suspected."; tab; "Address: ";
        dquote; address; dquote; " Replaced with blank string."].

(** [fix_incorrect_address(dataset, status_output)].  The test
    ['Mississauga' in address] is the membership test of the Modality
    Correction. *)
Definition fix_incorrect_address : repair_method := λ dataset,
  let* has_address := in_dataset "InstitutionAddress" dataset in
  match dataset with
  | None => ret None
  | Some ds =>
      if has_address then
        let* address := data_element_value ds "InstitutionAddress" in
        match address with
        | VStr address =>
            if str_in "Mississauga" address then
              status_output (address_message address) ;;;
              ret (Some (set_value ds "InstitutionAddress" (VStr EmptyString)))
            else ret dataset
        | VMulti items address =>
            if bool_decide ("Mississauga" ∈ items) then
              status_output (address_message address) ;;;
              ret (Some (set_value ds "InstitutionAddress" (VStr EmptyString)))
            else ret dataset
        | VOther => raise TypeError
        end
      else ret dataset
  end.

(** The list the notebook passes to [perform_repairs]. *)
Definition repair_methods : list repair_method :=
  [fix_invalid_characters; fix_incorrect_modality; fix_incorrect_address].

(** * Properties *)

(** ** Strings *)

Lemma append_String (c : ascii) (a b : string) :
  String c a +:+ b = String c (a +:+ b).
Proof. reflexivity. Qed.

Lemma append_Empty (b : string) : EmptyString +:+ b = b.
Proof. reflexivity. Qed.

Lemma startswith_spec (s p : string) :
  startswith s p = true ↔ ∃ r, s = p +:+ r.
Proof.
  revert s. induction p as [|c p IH]; intros s; cbn [startswith].
  - split; [intros _; by exists s | done].
  - destruct s as [|d s].
    + split; [done | intros [r Hr]; discriminate].
    + destruct (decide (c = d)) as [->|Hne].
      * rewrite IH. split; intros [r Hr]; exists r;
          rewrite append_String in *; congruence.
      * split; [done | intros [r Hr]; rewrite append_String in Hr; congruence].
Qed.

Lemma str_in_spec (sub s : string) :
  str_in sub s = true ↔ ∃ a b, s = a +:+ sub +:+ b.
Proof.
  induction s as [|d s IH].
  - cbn [str_in]. rewrite orb_false_r, startswith_spec. split.
    + intros [r Hr]. by exists EmptyString, r.
    + intros [a [b Hab]]. destruct a as [|c a].
      * eauto.
      * rewrite append_String in Hab. discriminate.
  - cbn [str_in]. rewrite orb_true_iff, startswith_spec, IH. split.
    + intros [[r Hr] | [a [b Hab]]].
      * by exists EmptyString, r.
      * exists (String d a), b. rewrite append_String. by rewrite Hab.
    + intros [a [b Hab]]. destruct a as [|c a].
      * left. eauto.
      * right. exists a, b. rewrite append_String in Hab. congruence.
Qed.

(** ** The trace monad *)

Lemma bind_ret_l {A B} (a : A) (k : A → M B) : bind (ret a) k = k a.
Proof. unfold bind, ret. by destruct (k a). Qed.

Lemma bind_emit {B} (ev : event) (k : unit → M B) :
  bind (emit ev) k = (ev :: (k tt).1, (k tt).2).
Proof. unfold bind, emit. by destruct (k tt). Qed.

Lemma bind_raise {A B} (e : exn) (k : A → M B) : bind (raise e) k = raise e.
Proof. done. Qed.

Lemma bind_assoc {A B C} (m : M A) (f : A → M B) (g : B → M C) :
  bind (bind m f) g = bind m (λ x, bind (f x) g).
Proof.
  unfold bind. destruct m as [t [a|e]]; [|done].
  destruct (f a) as [t2 [b|e]]; [|done].
  destruct (g b) as [t3 r]. by rewrite app_assoc.
Qed.

(** [prefixed ev m]: the event [ev], then the computation [m]. *)
Definition prefixed {A} (ev : event) (m : M A) : M A := (ev :: m.1, m.2).

Lemma bind_status {B} (msg : string) (k : unit → M B) :
  bind (status_output msg) k = prefixed (Status msg) (k tt).
Proof. unfold bind, status_output, emit, prefixed. by destruct (k tt). Qed.

Lemma bind_prefixed {A B} ev (m : M A) (k : A → M B) :
  bind (prefixed ev m) k = prefixed ev (bind m k).
Proof.
  unfold prefixed, bind.
  destruct m as [t [a|e]]; cbn; [by destruct (k a) | done].
Qed.

Create Rewrite HintDb mrun.
#[local] Hint Rewrite @bind_ret_l @bind_status @bind_prefixed @bind_assoc
  @bind_raise : mrun.

(** An exception leaves the loop: the remaining elements are not visited. *)
Lemma for_each_raise {A} (x : A) (l : list A) (body : A → M unit) tr e :
  body x = (tr, Raise e) → for_each (x :: l) body = (tr, Raise e).
Proof. intros H. simpl. unfold bind. by rewrite H. Qed.

Lemma for_each_ok {A} (x : A) (l : list A) (body : A → M unit) tr :
  body x = (tr, Ok tt) →
  for_each (x :: l) body = (tr ++ (for_each l body).1, (for_each l body).2).
Proof. intros H. simpl. unfold bind. rewrite H. by destruct (for_each l body). Qed.

(** ** Invalid Character Cleanup *)

(** The element [k] is absent or holds a [str]. *)
Definition text_or_absent (ds : Dataset) (k : string) : Prop :=
  match ds !! k with
  | Some (VStr _) | None => True
  | Some _ => False
  end.

Lemma text_or_absent_iff (ds : Dataset) (k : string) :
  text_or_absent ds k ↔ ds !! k = None ∨ ∃ s, ds !! k = Some (VStr s).
Proof.
  unfold text_or_absent. destruct (ds !! k) as [[s|l t|]|].
  - split; [eauto | done].
  - split; [done | by intros [?|[? ?]]].
  - split; [done | by intros [?|[? ?]]].
  - split; [eauto | done].
Qed.

Lemma text_or_absent_insert_ne (ds : Dataset) (k k' : string) (v : value) :
  k ≠ k' → text_or_absent (<[k := v]> ds) k' ↔ text_or_absent ds k'.
Proof. intros Hne. unfold text_or_absent. by rewrite lookup_insert_ne. Qed.

Lemma text_or_absent_insert_eq (ds : Dataset) (k s : string) :
  text_or_absent (<[k := VStr s]> ds) k.
Proof. unfold text_or_absent. by rewrite lookup_insert_eq. Qed.

(** The element [k] is present and its value is a [str] that starts with
    the character "/". *)
Definition starts_with_slash (ds : Dataset) (k : string) : bool :=
  match ds !! k with
  | Some (VStr s) => startswith s "/"
  | _ => false
  end.

Lemma starts_with_slash_iff (ds : Dataset) (k : string) :
  starts_with_slash ds k = true ↔ ∃ r, ds !! k = Some (VStr ("/" +:+ r)).
Proof.
  unfold starts_with_slash. destruct (ds !! k) as [[s|l t|]|].
  - rewrite startswith_spec. split; intros [r Hr]; exists r; congruence.
  - split; [done | intros [r Hr]; discriminate].
  - split; [done | intros [r Hr]; discriminate].
  - split; [done | intros [r Hr]; discriminate].
Qed.

(** One turn of the loop, on an element that is absent or holds a [str]. *)
Lemma fix_invalid_element_text (k : string) (ds : Dataset) :
  text_or_absent ds k →
  fix_invalid_element k (Some ds) =
    if starts_with_slash ds k
    then ([Status (invalid_character_message k)],
          Ok (Some (<[k := VStr EmptyString]> ds)))
    else ([], Ok (Some ds)).
Proof.
  unfold text_or_absent, fix_invalid_element, starts_with_slash, in_dataset.
  rewrite bind_ret_l. unfold data_element_value.
  destruct (ds !! k) as [[s|l t|]|]; [| done | done |]; intros _.
  - rewrite bool_decide_eq_true_2 by eauto. rewrite bind_ret_l.
    destruct (startswith s "/"); reflexivity.
  - rewrite bool_decide_eq_false_2 by (intros [? ?]; done). reflexivity.
Qed.

(** One turn of the loop, on an element that holds anything else. *)
Lemma fix_invalid_element_no_text (k : string) (ds : Dataset) (v : value) :
  ds !! k = Some v → (∀ s, v ≠ VStr s) →
  fix_invalid_element k (Some ds) = ([], Raise AttributeError).
Proof.
  intros Hk Hv. unfold fix_invalid_element, in_dataset, data_element_value.
  rewrite Hk. rewrite bool_decide_eq_true_2 by eauto. rewrite !bind_ret_l.
  destruct v as [s|l t|]; [by destruct (Hv s) | done | done].
Qed.

Lemma fix_invalid_element_split (k : string) (ds : Dataset) :
  text_or_absent ds k ∨ ∃ v, ds !! k = Some v ∧ ∀ s, v ≠ VStr s.
Proof.
  unfold text_or_absent. destruct (ds !! k) as [[s|l t|]|]; eauto.
Qed.

(** One turn of the loop never yields [None], whatever the element holds. *)
Lemma fix_invalid_element_not_None (k : string) (ds : Dataset) tr :
  fix_invalid_element k (Some ds) ≠ (tr, Ok None).
Proof.
  destruct (fix_invalid_element_split k ds) as [Ht | (v & Hk & Hv)].
  - rewrite (fix_invalid_element_text k ds Ht).
    destruct (starts_with_slash ds k); discriminate.
  - rewrite (fix_invalid_element_no_text k ds v Hk Hv). discriminate.
Qed.

Lemma fix_invalid_element_cases (k : string) (ds : Dataset) :
  (∃ tr e, fix_invalid_element k (Some ds) = (tr, Raise e)) ∨
  (∃ tr ds', fix_invalid_element k (Some ds) = (tr, Ok (Some ds'))).
Proof.
  destruct (fix_invalid_element k (Some ds)) as [tr [[ds'|]|e]] eqn:E; eauto.
  by apply fix_invalid_element_not_None in E.
Qed.

Lemma starts_with_slash_insert_ne (ds : Dataset) (k k' : string) (v : value) :
  k ≠ k' → starts_with_slash (<[k := v]> ds) k' = starts_with_slash ds k'.
Proof. intros Hne. unfold starts_with_slash. by rewrite lookup_insert_ne. Qed.

(** The rule on a dataset whose two target elements hold a [str] when
    present: the lines and the values, by the elements that start with
    "/". *)
Lemma fix_invalid_characters_run (ds : Dataset) :
  text_or_absent ds "BodyPartExamined" →
  text_or_absent ds "OtherPatientIDs" →
  ∃ ds',
    fix_invalid_characters (Some ds) =
      (Status <$> (invalid_character_message <$>
         List.filter (starts_with_slash ds) ["BodyPartExamined"; "OtherPatientIDs"]),
       Ok (Some ds')) ∧
    ∀ k, k ∈ ["BodyPartExamined"; "OtherPatientIDs"] →
      ds' !! k = if starts_with_slash ds k then Some (VStr EmptyString) else ds !! k.
Proof.
  intros Hbody Hother. unfold fix_invalid_characters. cbn [fix_invalid_elements].
  rewrite (fix_invalid_element_text "BodyPartExamined") by done.
  cbn [List.filter].
  assert (∀ d : Dataset, d !! "OtherPatientIDs" = ds !! "OtherPatientIDs" →
            starts_with_slash d "OtherPatientIDs" = starts_with_slash ds "OtherPatientIDs")
    as Hsame by (intros d Hd; unfold starts_with_slash; by rewrite Hd).
  destruct (starts_with_slash ds "BodyPartExamined") eqn:Hb; unfold bind at 1;
    (rewrite (fix_invalid_element_text "OtherPatientIDs")
       by (by rewrite ?text_or_absent_insert_ne));
    rewrite ?Hsame by (by rewrite lookup_insert_ne);
    destruct (starts_with_slash ds "OtherPatientIDs") eqn:Ho; cbn;
    eexists; (split; [reflexivity|]); intros k Hk;
    repeat (apply elem_of_cons in Hk as [->|Hk]);
    try (by apply elem_of_nil in Hk);
    rewrite ?Hb, ?Ho;
    rewrite ?lookup_insert_eq, ?(lookup_insert_ne _ "BodyPartExamined" "OtherPatientIDs"),
      ?(lookup_insert_ne _ "OtherPatientIDs" "BodyPartExamined"), ?lookup_insert_eq by done;
    done.
Qed.

(** X27.  The Invalid Character Cleanup never returns the discard signal.
    On a dataset whose BodyPartExamined and OtherPatientIDs, when present,
    hold a single string, it returns a dataset in which each of the two
    elements is the empty string when it was present with a value starting
    with "/", with one line in the log that names the element, and has its
    old value (or is still absent) otherwise, with no line for it; the log
    holds nothing else.  When one of the two elements holds something else
    than a string, the rule raises [AttributeError] and returns nothing. *)
Theorem fix_invalid_characters_spec (ds : Dataset) :
  (∀ tr, fix_invalid_characters (Some ds) ≠ (tr, Ok None)) ∧
  ((∀ k, k ∈ ["BodyPartExamined"; "OtherPatientIDs"] →
      ds !! k = None ∨ ∃ s, ds !! k = Some (VStr s)) →
   ∃ tr ds',
     fix_invalid_characters (Some ds) = (tr, Ok (Some ds')) ∧
     (∀ k, k ∈ ["BodyPartExamined"; "OtherPatientIDs"] →
        ((∃ r, ds !! k = Some (VStr ("/" +:+ r))) →
           ds' !! k = Some (VStr EmptyString) ∧
           Status (invalid_character_message k) ∈ tr ∧
           ∃ a b, invalid_character_message k = a +:+ k +:+ b) ∧
        (¬ (∃ r, ds !! k = Some (VStr ("/" +:+ r))) →
           ds' !! k = ds !! k ∧ Status (invalid_character_message k) ∉ tr)) ∧
     (∀ ev, ev ∈ tr →
        ∃ k, k ∈ ["BodyPartExamined"; "OtherPatientIDs"] ∧
             ev = Status (invalid_character_message k)) ∧
     NoDup tr) ∧
  (∀ k v, k ∈ ["BodyPartExamined"; "OtherPatientIDs"] →
     ds !! k = Some v → (∀ s, v ≠ VStr s) →
     ∃ tr, fix_invalid_characters (Some ds) = (tr, Raise AttributeError)).
Proof.
  assert (invalid_character_message "BodyPartExamined" ≠
          invalid_character_message "OtherPatientIDs") as Hmsg by compute_done.
  split; [|split].
  - intros tr. unfold fix_invalid_characters. cbn [fix_invalid_elements].
    destruct (fix_invalid_element_cases "BodyPartExamined" ds)
      as [(t1 & e & ->) | (t1 & ds1 & ->)]; [done|].
    unfold bind at 1.
    destruct (fix_invalid_element_cases "OtherPatientIDs" ds1)
      as [(t2 & e & ->) | (t2 & ds2 & ->)]; [done|].
    cbn. discriminate.
  - intros Htext.
    assert (text_or_absent ds "BodyPartExamined") as Hb
      by (apply text_or_absent_iff, Htext; repeat constructor).
    assert (text_or_absent ds "OtherPatientIDs") as Ho
      by (apply text_or_absent_iff, Htext; repeat constructor).
    destruct (fix_invalid_characters_run ds Hb Ho) as (ds' & Hrun & Hlook).
    eexists _, ds'. split; [exact Hrun|].
    cbn [List.filter].
    split; [|split].
    + intros k Hk. specialize (Hlook k Hk). split.
      * intros Hslash. apply starts_with_slash_iff in Hslash.
        rewrite Hslash in Hlook. split; [done|]. split.
        -- repeat (apply elem_of_cons in Hk as [->|Hk]);
             try (by apply elem_of_nil in Hk); rewrite Hslash;
             [left | destruct (starts_with_slash ds "BodyPartExamined"); cbn [fmap list_fmap];
                     [right; left | left]].
        -- exists "Invalid Character found in element ",
                  ("." +:+ tab +:+ "Replaced with blank string.").
           reflexivity.
      * intros Hno. destruct (starts_with_slash ds k) eqn:Hs;
          [by apply starts_with_slash_iff in Hs|].
        split; [done|].
        repeat (apply elem_of_cons in Hk as [->|Hk]);
          try (by apply elem_of_nil in Hk); rewrite Hs.
        -- destruct (starts_with_slash ds "OtherPatientIDs"); cbn [fmap list_fmap];
             [|by intros ?%elem_of_nil].
           intros Hin%list_elem_of_singleton. congruence.
        -- destruct (starts_with_slash ds "BodyPartExamined"); cbn [fmap list_fmap];
             [|by intros ?%elem_of_nil].
           intros Hin%list_elem_of_singleton. congruence.
    + intros ev Hev.
      destruct (starts_with_slash ds "BodyPartExamined"),
               (starts_with_slash ds "OtherPatientIDs"); cbn [fmap list_fmap] in Hev;
        repeat (apply elem_of_cons in Hev as [->|Hev]);
        try (by apply elem_of_nil in Hev);
        eexists; (split; [|reflexivity]); repeat constructor.
    + destruct (starts_with_slash ds "BodyPartExamined"),
               (starts_with_slash ds "OtherPatientIDs"); cbn [fmap list_fmap];
        repeat constructor; try (by intros ?%elem_of_nil).
      intros Hin%list_elem_of_singleton. congruence.
  - intros k v Hk Hv Hno.
    unfold fix_invalid_characters. cbn [fix_invalid_elements].
    repeat (apply elem_of_cons in Hk as [->|Hk]); try (by apply elem_of_nil in Hk).
    + rewrite (fix_invalid_element_no_text _ ds v Hv Hno). by exists [].
    + destruct (fix_invalid_element_split "BodyPartExamined" ds)
        as [Ht | (w & Hw & Hnw)].
      * rewrite (fix_invalid_element_text _ ds Ht).
        destruct (starts_with_slash ds "BodyPartExamined"); unfold bind at 1;
          rewrite (fix_invalid_element_no_text "OtherPatientIDs" _ v)
            by (by rewrite ?lookup_insert_ne); eauto.
      * rewrite (fix_invalid_element_no_text _ ds w Hw Hnw). by exists [].
Qed.

(** ** Modality Correction *)

Definition RPIS : string := "RadiopharmaceuticalInformationSequence".

Lemma lookup_set_modality (ds : Dataset) (k : string) (v : value) :
  k ≠ "Modality" → set_value ds "Modality" v !! k = ds !! k.
Proof. intros. unfold set_value. by rewrite lookup_insert_ne. Qed.

(** The dataset has no Modality element: the rejection line and [None]. *)
Lemma fix_incorrect_modality_absent (ds : Dataset) :
  ds !! "Modality" = None →
  fix_incorrect_modality (Some ds) =
    ([Status "Modality element not found. File not used."], Ok None).
Proof.
  intros Hm. unfold fix_incorrect_modality, in_dataset. rewrite bind_ret_l, Hm.
  rewrite bool_decide_eq_false_2 by (intros [? ?]; done). reflexivity.
Qed.

(** [sub in v], and the text of [v] in a message, for a value that holds
    text: a [str] or a [MultiValue]. *)
Definition holds (sub : string) (v : value) : bool :=
  match v with
  | VStr s => str_in sub s
  | VMulti items _ => bool_decide (sub ∈ items)
  | VOther => false
  end.

Definition shown (v : value) : string :=
  match v with
  | VStr s => s
  | VMulti _ text => text
  | VOther => EmptyString
  end.

(** The dataset has a Modality element holding text: what the two checks
    do, both deciding on the value read before either ran. *)
Lemma fix_incorrect_modality_run (ds : Dataset) (v : value) :
  ds !! "Modality" = Some v → v ≠ VOther →
  let ct := bool_decide (is_Some (ds !! "KVP")) && negb (holds "CT" v) in
  let pt := bool_decide (is_Some (ds !! RPIS)) && negb (holds "PT" v) in
  fix_incorrect_modality (Some ds) =
    ((if ct then [Status (modality_message (shown v) "CT")] else []) ++
     (if pt then [Status (modality_message (shown v) "PT")] else []),
     Ok (Some (if pt then <["Modality" := VStr "PT"]> ds
               else if ct then <["Modality" := VStr "CT"]> ds
               else ds))).
Proof.
  intros Hm Hv. unfold fix_incorrect_modality, in_dataset, data_element_value, RPIS.
  rewrite Hm.
  rewrite (bool_decide_eq_true_2 (is_Some (Some v))) by eauto.
  autorewrite with mrun. cbn [negb].
  destruct v as [m|items text|]; [| |done]; cbn [holds shown].
  - destruct (bool_decide (is_Some (ds !! "KVP"))); cbn [andb];
      [destruct (str_in "CT" m); cbn [negb] |]; autorewrite with mrun;
      rewrite ?lookup_set_modality by done;
      (destruct (bool_decide (is_Some (ds !! "RadiopharmaceuticalInformationSequence")));
       cbn [andb];
       [destruct (str_in "PT" m); cbn [negb] |]); autorewrite with mrun;
       unfold set_value; rewrite ?insert_insert_eq; reflexivity.
  - destruct (bool_decide (is_Some (ds !! "KVP"))); cbn [andb];
      [destruct (bool_decide ("CT" ∈ items)); cbn [negb] |]; autorewrite with mrun;
      rewrite ?lookup_set_modality by done;
      (destruct (bool_decide (is_Some (ds !! "RadiopharmaceuticalInformationSequence")));
       cbn [andb];
       [destruct (bool_decide ("PT" ∈ items)); cbn [negb] |]); autorewrite with mrun;
       unfold set_value; rewrite ?insert_insert_eq; reflexivity.
Qed.

(** The same, for a Modality element holding the string [m]. *)
Lemma fix_incorrect_modality_text (ds : Dataset) (m : string) :
  ds !! "Modality" = Some (VStr m) →
  let ct := bool_decide (is_Some (ds !! "KVP")) && negb (str_in "CT" m) in
  let pt := bool_decide (is_Some (ds !! RPIS)) && negb (str_in "PT" m) in
  fix_incorrect_modality (Some ds) =
    ((if ct then [Status (modality_message m "CT")] else []) ++
     (if pt then [Status (modality_message m "PT")] else []),
     Ok (Some (if pt then <["Modality" := VStr "PT"]> ds
               else if ct then <["Modality" := VStr "CT"]> ds
               else ds))).
Proof. intros Hm. by apply (fix_incorrect_modality_run ds (VStr m)). Qed.

(** The Modality element holds a value without text. *)
Lemma fix_incorrect_modality_other (ds : Dataset) :
  ds !! "Modality" = Some VOther →
  fix_incorrect_modality (Some ds) =
    if bool_decide (is_Some (ds !! "KVP")) || bool_decide (is_Some (ds !! RPIS))
    then ([], Raise TypeError)
    else ([], Ok (Some ds)).
Proof.
  intros Hm. unfold fix_incorrect_modality, in_dataset, data_element_value, RPIS.
  rewrite bind_ret_l, Hm.
  rewrite (bool_decide_eq_true_2 (is_Some (Some VOther))) by eauto.
  cbn [negb]. rewrite bind_ret_l.
  destruct (bool_decide (is_Some (ds !! "KVP"))); cbn [orb]; [reflexivity|].
  rewrite bind_ret_l.
  destruct (bool_decide (is_Some (ds !! "RadiopharmaceuticalInformationSequence")));
    reflexivity.
Qed.

(** A dataset labelled PT that carries both indicator elements. *)
Definition pet_with_kvp : Dataset :=
  <["Modality" := VStr "PT"]>
    (<["KVP" := VOther]>
       (<[RPIS := VOther]>
          (<["SOPInstanceUID" := VStr "1.2.840.1"]> ∅))).

(** C3, as stated, fails: with both indicator elements present and Modality
    already "PT", the CT check fires, the PET check (deciding on the value
    read before the CT check wrote) does not, and Modality ends as "CT". *)
Lemma fix_incorrect_modality_pt_becomes_ct :
  pet_with_kvp !! "Modality" = Some (VStr "PT") ∧
  is_Some (pet_with_kvp !! "KVP") ∧
  is_Some (pet_with_kvp !! RPIS) ∧
  fix_incorrect_modality (Some pet_with_kvp) =
    ([Status (modality_message "PT" "CT")],
     Ok (Some (<["Modality" := VStr "CT"]> pet_with_kvp))) ∧
  (<["Modality" := VStr "CT"]> pet_with_kvp) !! "Modality" ≠ Some (VStr "PT").
Proof.
  compute_done.
Qed.

(** C3, amended.  With Modality, KVP and the Radiopharmaceutical Information
    Sequence present and a Modality string that does not contain "PT", the
    rule returns the dataset with Modality exactly "PT"; the PET correction
    is logged, preceded by the CT correction when the CT check fired too
    (the string does not contain "CT" either). *)
Theorem fix_incorrect_modality_both_present (ds : Dataset) (m : string) :
  ds !! "Modality" = Some (VStr m) →
  is_Some (ds !! "KVP") →
  is_Some (ds !! RPIS) →
  str_in "PT" m = false →
  fix_incorrect_modality (Some ds) =
    ((if str_in "CT" m then [] else [Status (modality_message m "CT")]) ++
     [Status (modality_message m "PT")],
     Ok (Some (<["Modality" := VStr "PT"]> ds))) ∧
  (<["Modality" := VStr "PT"]> ds) !! "Modality" = Some (VStr "PT").
Proof.
  intros Hm Hkvp Hrpis Hpt. split; [|by rewrite lookup_insert_eq].
  rewrite (fix_incorrect_modality_text ds m Hm). cbn zeta.
  rewrite !bool_decide_eq_true_2 by done. rewrite Hpt. cbn [andb negb].
  by destruct (str_in "CT" m).
Qed.

(** ** Mismatched Address Cleanup *)

(** The rule on a dataset without the element, and on one whose element
    holds the string [a]. *)
Lemma fix_incorrect_address_absent (ds : Dataset) :
  ds !! "InstitutionAddress" = None →
  fix_incorrect_address (Some ds) = ([], Ok (Some ds)).
Proof.
  intros Ha. unfold fix_incorrect_address, in_dataset. rewrite Ha.
  rewrite bool_decide_eq_false_2 by (intros [? ?]; done).
  by autorewrite with mrun.
Qed.

Lemma fix_incorrect_address_run (ds : Dataset) (v : value) :
  ds !! "InstitutionAddress" = Some v → v ≠ VOther →
  fix_incorrect_address (Some ds) =
    if holds "Mississauga" v
    then ([Status (address_message (shown v))],
          Ok (Some (<["InstitutionAddress" := VStr EmptyString]> ds)))
    else ([], Ok (Some ds)).
Proof.
  intros Ha Hv. unfold fix_incorrect_address, in_dataset, data_element_value.
  rewrite Ha. rewrite bool_decide_eq_true_2 by eauto.
  autorewrite with mrun. destruct v as [a|items text|]; [| |done]; cbn [holds shown].
  - destruct (str_in "Mississauga" a); [|done]. by autorewrite with mrun.
  - destruct (bool_decide ("Mississauga" ∈ items)); [|done]. by autorewrite with mrun.
Qed.

Lemma fix_incorrect_address_text (ds : Dataset) (a : string) :
  ds !! "InstitutionAddress" = Some (VStr a) →
  fix_incorrect_address (Some ds) =
    if str_in "Mississauga" a
    then ([Status (address_message a)],
          Ok (Some (<["InstitutionAddress" := VStr EmptyString]> ds)))
    else ([], Ok (Some ds)).
Proof. intros Ha. by apply (fix_incorrect_address_run ds (VStr a)). Qed.

Lemma fix_incorrect_address_other (ds : Dataset) :
  ds !! "InstitutionAddress" = Some VOther →
  fix_incorrect_address (Some ds) = ([], Raise TypeError).
Proof.
  intros Ha. unfold fix_incorrect_address, in_dataset, data_element_value.
  rewrite Ha. rewrite bool_decide_eq_true_2 by eauto.
  by autorewrite with mrun.
Qed.

(** The spec's reading of the test, in its words: the address contains the
    substring "Mississauga" in any casing.  [casefold] lowers the letters A
    to Z and the test compares the folded strings. *)
Definition lower_ascii (c : ascii) : ascii :=
  let n := nat_of_ascii c in
  if (65 <=? n)%nat && (n <=? 90)%nat then ascii_of_nat (n + 32) else c.

Fixpoint casefold (s : string) : string :=
  match s with
  | EmptyString => EmptyString
  | String c s' => String (lower_ascii c) (casefold s')
  end.

Definition str_in_any_casing (sub s : string) : bool :=
  str_in (casefold sub) (casefold s).

(** An address written in capitals. *)
Definition capitals_address : Dataset :=
  <["InstitutionAddress" := VStr "2200 EGLINTON AVE W, MISSISSAUGA, ON"]>
    (<["Modality" := VStr "PT"]> (<["SOPInstanceUID" := VStr "1.2.840.2"]> ∅)).

(** C4, as stated, fails: the test of the rule is case-sensitive.  An address
    that contains the word in capitals is left as it is, with no log line. *)
Lemma fix_incorrect_address_capitals_kept :
  capitals_address !! "InstitutionAddress" =
    Some (VStr "2200 EGLINTON AVE W, MISSISSAUGA, ON") ∧
  str_in_any_casing "Mississauga" "2200 EGLINTON AVE W, MISSISSAUGA, ON" = true ∧
  fix_incorrect_address (Some capitals_address) = ([], Ok (Some capitals_address)).
Proof. cbv zeta. compute_done. Qed.

(** C4, amended.  The rule never returns the discard signal.  When the
    InstitutionAddress element holds a string in which "Mississauga" occurs
    with exactly this casing, at any position, the rule sets the element to
    the empty string and emits one line that quotes the old value; when the
    string has no such occurrence the rule returns the dataset unchanged and
    emits nothing. *)
Theorem fix_incorrect_address_spec (ds : Dataset) :
  (∀ tr, fix_incorrect_address (Some ds) ≠ (tr, Ok None)) ∧
  (∀ a, ds !! "InstitutionAddress" = Some (VStr a) →
     ((∃ x y, a = x +:+ "Mississauga" +:+ y) →
        fix_incorrect_address (Some ds) =
          ([Status (address_message a)],
           Ok (Some (<["InstitutionAddress" := VStr EmptyString]> ds))) ∧
        str_in a (address_message a) = true) ∧
     (¬ (∃ x y, a = x +:+ "Mississauga" +:+ y) →
        fix_incorrect_address (Some ds) = ([], Ok (Some ds)))).
Proof.
  split.
  - intros tr. destruct (ds !! "InstitutionAddress") as [v|] eqn:Ha.
    + destruct (decide (v = VOther)) as [->|Hv].
      * rewrite (fix_incorrect_address_other ds Ha). discriminate.
      * rewrite (fix_incorrect_address_run ds v Ha Hv).
        destruct (holds "Mississauga" v); discriminate.
    + rewrite (fix_incorrect_address_absent ds Ha). discriminate.
  - intros a Ha. rewrite (fix_incorrect_address_text ds a Ha).
    split.
    + intros Hin. apply str_in_spec in Hin. rewrite Hin. split; [done|].
      apply str_in_spec.
      exists ("Mismatched Institution Addresses Suspected." +:+ tab +:+
              "Address: " +:+ dquote),
             (dquote +:+ " Replaced with blank string." +:+ EmptyString).
      reflexivity.
    + intros Hnot. destruct (str_in "Mississauga" a) eqn:E; [|done].
      apply str_in_spec in E. done.
Qed.

(** ** Frame: the elements a rule does not target *)

Lemma fix_invalid_element_result (k : string) (ds ds' : Dataset) tr :
  fix_invalid_element k (Some ds) = (tr, Ok (Some ds')) →
  ds' = ds ∨ ds' = <[k := VStr EmptyString]> ds.
Proof.
  destruct (fix_invalid_element_split k ds) as [Ht | (v & Hk & Hv)].
  - rewrite (fix_invalid_element_text k ds Ht).
    destruct (starts_with_slash ds k); intros [= _ <-]; auto.
  - by rewrite (fix_invalid_element_no_text k ds v Hk Hv).
Qed.

Lemma fix_invalid_characters_frame (ds ds' : Dataset) tr (k : string) :
  fix_invalid_characters (Some ds) = (tr, Ok (Some ds')) →
  k ≠ "BodyPartExamined" → k ≠ "OtherPatientIDs" → ds' !! k = ds !! k.
Proof.
  unfold fix_invalid_characters. cbn [fix_invalid_elements]. intros Hrun Hb Ho.
  destruct (fix_invalid_element_cases "BodyPartExamined" ds)
    as [(t1 & e & H1) | (t1 & ds1 & H1)]; rewrite H1 in Hrun; [done|].
  unfold bind at 1 in Hrun.
  destruct (fix_invalid_element_cases "OtherPatientIDs" ds1)
    as [(t2 & e & H2) | (t2 & ds2 & H2)]; rewrite H2 in Hrun; [done|].
  cbn in Hrun. injection Hrun as _ <-.
  apply fix_invalid_element_result in H1 as [->| ->];
    apply fix_invalid_element_result in H2 as [->| ->];
    by rewrite ?lookup_insert_ne.
Qed.

Lemma fix_incorrect_modality_frame (ds ds' : Dataset) tr (k : string) :
  fix_incorrect_modality (Some ds) = (tr, Ok (Some ds')) →
  k ≠ "Modality" → ds' !! k = ds !! k.
Proof.
  intros Hrun Hk. destruct (ds !! "Modality") as [v|] eqn:Hm.
  - destruct (decide (v = VOther)) as [->|Hv].
    + rewrite (fix_incorrect_modality_other ds Hm) in Hrun.
      case_match; [done|]. by injection Hrun as _ <-.
    + rewrite (fix_incorrect_modality_run ds v Hm Hv) in Hrun. cbn zeta in Hrun.
      injection Hrun as _ <-.
      repeat case_match; by rewrite ?lookup_insert_ne.
  - by rewrite (fix_incorrect_modality_absent ds Hm) in Hrun.
Qed.

Lemma fix_incorrect_address_frame (ds ds' : Dataset) tr (k : string) :
  fix_incorrect_address (Some ds) = (tr, Ok (Some ds')) →
  k ≠ "InstitutionAddress" → ds' !! k = ds !! k.
Proof.
  intros Hrun Hk. destruct (ds !! "InstitutionAddress") as [v|] eqn:Ha.
  - destruct (decide (v = VOther)) as [->|Hv].
    + by rewrite (fix_incorrect_address_other ds Ha) in Hrun.
    + rewrite (fix_incorrect_address_run ds v Ha Hv) in Hrun.
      case_match; injection Hrun as _ <-; by rewrite ?lookup_insert_ne.
  - rewrite (fix_incorrect_address_absent ds Ha) in Hrun.
    by injection Hrun as _ <-.
Qed.

(** C9.  Whenever a repair rule returns a dataset, every element other than
    the rule's own targets has in it the value (or the absence) it had in
    the input: BodyPartExamined and OtherPatientIDs for the Invalid Character
    Cleanup, Modality for the Modality Correction, InstitutionAddress for the
    Mismatched Address Cleanup. *)
Theorem repair_rules_frame (ds : Dataset) :
  (∀ tr ds', fix_invalid_characters (Some ds) = (tr, Ok (Some ds')) →
     ∀ k, k ≠ "BodyPartExamined" → k ≠ "OtherPatientIDs" → ds' !! k = ds !! k) ∧
  (∀ tr ds', fix_incorrect_modality (Some ds) = (tr, Ok (Some ds')) →
     ∀ k, k ≠ "Modality" → ds' !! k = ds !! k) ∧
  (∀ tr ds', fix_incorrect_address (Some ds) = (tr, Ok (Some ds')) →
     ∀ k, k ≠ "InstitutionAddress" → ds' !! k = ds !! k).
Proof.
  split; [|split]; intros tr ds' Hrun k.
  - by apply fix_invalid_characters_frame with tr.
  - by apply fix_incorrect_modality_frame with tr.
  - by apply fix_incorrect_address_frame with tr.
Qed.

(** ** The Dataset Loader *)

Lemma dcmread_trace (fs : filesystem) (file_path : path) :
  (dcmread fs file_path).1 = [Dcmread file_path].
Proof.
  unfold dcmread. rewrite bind_emit.
  by destruct (stat fs file_path) as [[[ds| |]| |]|].
Qed.

(** C6.  When [dcmread] rejects the file as not being in the DICOM format,
    the Loader returns [None] without raising and emits exactly one status
    line, which starts with the name of the file.  When [dcmread] fails in
    any other way (a missing file, a file that cannot be read), the Loader
    raises that same exception, emits no status line and returns nothing. *)
Theorem load_header_spec (fs : filesystem) (file_path : path) :
  (∀ tr, dcmread fs file_path = (tr, Raise InvalidDicomError) →
     ∃ tr', load_header fs file_path = (tr', Ok None) ∧
            repair_log tr' =
              [name file_path +:+ " did not contain valid DICOM data.  Skipped."]) ∧
  (∀ tr e, dcmread fs file_path = (tr, Raise e) → e ≠ InvalidDicomError →
     load_header fs file_path = (tr, Raise e) ∧ repair_log tr = []) ∧
  (stat fs file_path = Some (EFile NotDicom) →
     dcmread fs file_path = ([Dcmread file_path], Raise InvalidDicomError)) ∧
  (stat fs file_path = None →
     dcmread fs file_path = ([Dcmread file_path], Raise FileNotFoundError)) ∧
  (stat fs file_path = Some (EFile Unreadable) →
     dcmread fs file_path = ([Dcmread file_path], Raise PermissionError)).
Proof.
  split; [|split; [|split; [|split]]].
  - intros tr Hread. pose proof (dcmread_trace fs file_path) as Htr.
    rewrite Hread in Htr. cbn in Htr. subst tr.
    unfold load_header. rewrite Hread. cbn. eauto.
  - intros tr e Hread Hne. pose proof (dcmread_trace fs file_path) as Htr.
    rewrite Hread in Htr. cbn in Htr. subst tr.
    unfold load_header. rewrite Hread. cbn. by destruct e.
  - intros Hs. unfold dcmread. by rewrite Hs.
  - intros Hs. unfold dcmread. by rewrite Hs.
  - intros Hs. unfold dcmread. by rewrite Hs.
Qed.

(** ** The Corpus Scanner *)

Lemma load_header_dicom (fs : filesystem) (p : path) (ds : Dataset) :
  stat fs p = Some (EFile (Dicom ds)) →
  load_header fs p = ([Dcmread p], Ok (Some ds)).
Proof. intros Hs. unfold load_header, dcmread. by rewrite Hs. Qed.

Lemma load_header_not_dicom (fs : filesystem) (p : path) :
  stat fs p = Some (EFile NotDicom) →
  load_header fs p =
    ([Dcmread p; Status (name p +:+ " did not contain valid DICOM data.  Skipped.")],
     Ok None).
Proof. intros Hs. unfold load_header, dcmread. by rewrite Hs. Qed.

(** A file holding a dataset with at least one element is yielded: the body
    of the driving loop runs on it. *)
Lemma check_file_yields (fs : filesystem) (body : Dataset → M unit) (p : path)
    (ds : Dataset) :
  stat fs p = Some (EFile (Dicom ds)) → size ds ≠ 0 →
  check_file fs body p =
    prefixed (Status ("Checking file " +:+ name p))
      (prefixed (Dcmread p) (body ds)).
Proof.
  intros Hs Hsize. unfold check_file, is_file. rewrite Hs.
  rewrite bind_status, (load_header_dicom fs p ds Hs).
  unfold bind, truthy, prefixed.
  destruct (size ds) as [|n]; [done|]. cbn [Nat.eqb negb].
  by destruct (body ds).
Qed.

(** A file that is not in the DICOM format: the skip line of the Loader. *)
Lemma check_file_not_dicom (fs : filesystem) (body : Dataset → M unit) (p : path) :
  stat fs p = Some (EFile NotDicom) →
  check_file fs body p =
    ([Status ("Checking file " +:+ name p); Dcmread p;
      Status (name p +:+ " did not contain valid DICOM data.  Skipped.")], Ok tt).
Proof.
  intros Hs. unfold check_file, is_file. rewrite Hs.
  by rewrite bind_status, (load_header_not_dicom fs p Hs).
Qed.

(** C10.  A file that decodes to a dataset without any element: the Loader
    returns that dataset (not [None]) without a status line, and the Scanner
    emits the "Checking file" line, opens the file and goes on to the next
    entry without running the body of the driving loop, whatever that body
    is: nothing is yielded and no skip line is emitted. *)
Theorem check_file_empty_dataset (fs : filesystem) (body : Dataset → M unit)
    (p : path) (ds : Dataset) :
  stat fs p = Some (EFile (Dicom ds)) → size ds = 0 →
  load_header fs p = ([Dcmread p], Ok (Some ds)) ∧
  check_file fs body p =
    ([Status ("Checking file " +:+ name p); Dcmread p], Ok tt) ∧
  repair_log (check_file fs body p).1 = ["Checking file " +:+ name p].
Proof.
  intros Hs Hsize. split; [by apply load_header_dicom|].
  assert (check_file fs body p =
    ([Status ("Checking file " +:+ name p); Dcmread p], Ok tt)) as ->; [|done].
  unfold check_file, is_file. rewrite Hs.
  rewrite bind_status, (load_header_dicom fs p ds Hs).
  unfold bind, truthy. rewrite Hsize. reflexivity.
Qed.

(** What a scan that only lists (a driving loop with an empty body) opens:
    the regular files of the listing, in order, and never a directory; all of
    them when the scan ends without an exception. *)
Lemma check_file_reads (fs : filesystem) (p : path) :
  files_read (check_file fs (λ _, ret tt) p).1 = if is_file fs p then [p] else [].
Proof.
  unfold check_file, is_file, load_header, dcmread.
  destruct (stat fs p) as [[[ds| |]| |]|]; try reflexivity.
  cbn. unfold truthy. by destruct (negb (size ds =? 0)).
Qed.

Lemma for_each_trace {A} (x : A) (l : list A) (body : A → M unit) :
  (for_each (x :: l) body).1 =
    (body x).1 ++
    match (body x).2 with Ok _ => (for_each l body).1 | Raise _ => [] end.
Proof.
  cbn [for_each]. unfold bind. destruct (body x) as [t [[]|e]]; cbn.
  - by destruct (for_each l body).
  - by rewrite app_nil_r.
Qed.

Lemma files_read_app (t1 t2 : list event) :
  files_read (t1 ++ t2) = files_read t1 ++ files_read t2.
Proof. unfold files_read. apply omap_app. Qed.

Lemma scan_reads_files (fs : filesystem) (l : list path) :
  let run := for_each l (check_file fs (λ _, ret tt)) in
  ∃ rest, List.filter (is_file fs) l = files_read run.1 ++ rest ∧
          (run.2 = Ok tt → rest = []).
Proof.
  induction l as [|p l [rest [IH1 IH2]]]; cbn zeta in *.
  - exists []. done.
  - rewrite for_each_trace, files_read_app, check_file_reads.
    cbn [List.filter for_each]. unfold bind.
    destruct (check_file fs (λ _, ret tt) p) as [t [[]|e]] eqn:Hc; cbn [fst snd].
    + destruct (for_each l (check_file fs (λ _ : Dataset, ret ()))) as [t2 r2].
      cbn [fst snd] in *. exists rest. split; [|done].
      destruct (is_file fs p); cbn; by rewrite IH1.
    + exists (List.filter (is_file fs) l). split; [|done].
      destruct (is_file fs p); cbn; by rewrite ?app_nil_r.
Qed.

Lemma get_dicom_images_opens_files_only (fs : filesystem) (data_path p : path)
    (include_subdirectories : bool) :
  p ∈ files_read (get_dicom_images fs data_path include_subdirectories
                    (λ _, ret tt)).1 →
  is_file fs p = true.
Proof.
  unfold get_dicom_images. intros Hin.
  destruct (scan_reads_files fs
    (glob fs data_path (if include_subdirectories then AllBelow else TopDotted)))
    as [rest [Heq _]].
  assert (p ∈ List.filter (is_file fs)
    (glob fs data_path (if include_subdirectories then AllBelow else TopDotted)))
    as Hp by (rewrite Heq; apply elem_of_app; by left).
  apply list_elem_of_In, filter_In in Hp. tauto.
Qed.

(** A listing with a file whose name has no dot, as DICOM exports often are. *)
Definition plain_ct : Dataset :=
  <["Modality" := VStr "CT"]>
    (<["KVP" := VOther]> (<["SOPInstanceUID" := VStr "1.2.840.5"]> ∅)).

Definition export_directory : filesystem :=
  [ (["data"], EDir);
    (["data"; "IM0001"], EFile (Dicom plain_ct));
    (["data"; "scan.dcm"], EFile (Dicom plain_ct)) ].

(** C5 at this directory.  Without recursion the listing pattern keeps only
    names that contain a dot: the top-level file IM0001 gets no "Checking
    file" line and is never handed to the Loader.  With recursion the same
    file is checked and loaded. *)
Theorem get_dicom_images_skips_undotted_name :
  is_file export_directory ["data"; "IM0001"] = true ∧
  (let tr := (get_dicom_images export_directory ["data"] false (λ _, ret tt)).1 in
   repair_log tr = ["Checking file scan.dcm"] ∧
   files_read tr = [["data"; "scan.dcm"]]) ∧
  (let tr := (get_dicom_images export_directory ["data"] true (λ _, ret tt)).1 in
   repair_log tr = ["Checking file IM0001"; "Checking file scan.dcm"] ∧
   files_read tr = [["data"; "IM0001"]; ["data"; "scan.dcm"]]).
Proof. cbv zeta. compute_done. Qed.

(** ** The Repair Pipeline *)

(** The inner loop has no exit: after a rule has returned [None] the next
    rule of the list is called, on [None]. *)
Lemma apply_repairs_after_None (fs : filesystem) (method next : repair_method)
    (rest : list repair_method) (output_path : path) (dataset : option Dataset) tr :
  method dataset = (tr, Ok None) →
  apply_repairs fs (method :: next :: rest) output_path dataset =
    bind (tr, Ok tt) (λ _,
      let* dataset := next None in
      (match dataset with
       | Some ds => if truthy dataset then save_dicom_dataset fs ds output_path else ret tt
       | None => ret tt
       end) ;;;
      apply_repairs fs rest output_path dataset).
Proof.
  intros Hm. cbn [apply_repairs]. rewrite Hm.
  unfold bind at 1. rewrite bind_ret_l. unfold bind at 3.
  by destruct (bind (next None) _).
Qed.

(** Each of the three rules raises when it is called on [None]. *)
Lemma repair_methods_on_None (method : repair_method) :
  method ∈ repair_methods → method None = ([], Raise TypeError).
Proof.
  unfold repair_methods. intros Hin.
  repeat (apply elem_of_cons in Hin as [->|Hin]); try done.
  by apply elem_of_nil in Hin.
Qed.

(** A dataset without the Modality element, followed by a valid CT image;
    the output directory exists and is empty. *)
Definition no_modality : Dataset :=
  <["PatientID" := VStr "P-17"]> (<["SOPInstanceUID" := VStr "1.2.840.4"]> ∅).

Definition two_files : filesystem :=
  [ (["in"], EDir);
    (["in"; "a.dcm"], EFile (Dicom no_modality));
    (["in"; "b.dcm"], EFile (Dicom plain_ct));
    (["out"], EDir) ].

(** C1 at this directory.  With the Modality Correction followed by the
    Mismatched Address Cleanup, the first file is rejected, the next rule is
    then called on [None] and raises [TypeError]: the run ends there and
    b.dcm is never checked.  With the notebook's own list the run ends even
    earlier: the Output Writer is called after the first rule, on a dataset
    without Modality, and raises [KeyError].  Only when the discarding rule is
    the last of the list does the pipeline go on to b.dcm. *)
Theorem perform_repairs_discard_then_next_rule :
  perform_repairs two_files ["in"] ["out"]
      [fix_incorrect_modality; fix_incorrect_address] =
    ([Status "Checking file a.dcm"; Dcmread ["in"; "a.dcm"];
      Status "Modality element not found. File not used."],
     Raise TypeError) ∧
  perform_repairs two_files ["in"] ["out"] repair_methods =
    ([Status "Checking file a.dcm"; Dcmread ["in"; "a.dcm"]], Raise KeyError) ∧
  perform_repairs two_files ["in"] ["out"] [fix_incorrect_modality] =
    ([Status "Checking file a.dcm"; Dcmread ["in"; "a.dcm"];
      Status "Modality element not found. File not used.";
      Status "Checking file b.dcm"; Dcmread ["in"; "b.dcm"];
      SaveAs ["out"; "CT1.2.840.5.dcm"] plain_ct],
     Ok tt).
Proof. cbv zeta. compute_done. Qed.

(** A CT image labelled NM. *)
Definition mislabelled_ct : Dataset :=
  <["Modality" := VStr "NM"]>
    (<["KVP" := VOther]> (<["SOPInstanceUID" := VStr "1.2.840.3"]> ∅)).

Definition one_file : filesystem :=
  [ (["in"], EDir); (["in"; "img1.dcm"], EFile (Dicom mislabelled_ct));
    (["out"], EDir) ].

(** C2 at this directory.  The dataset survives the three rules, and the
    Output Writer is called three times, once after each rule: first with
    the dataset as it is before the Modality Correction, under the name built
    from the uncorrected Modality, then twice with the corrected dataset.
    The output location ends with two files for the one instance. *)
Theorem perform_repairs_saves_after_each_rule :
  let run := perform_repairs one_file ["in"] ["out"] repair_methods in
  let repaired := <["Modality" := VStr "CT"]> mislabelled_ct in
  run.2 = Ok tt ∧
  files_saved run.1 =
    [ (["out"; "NM1.2.840.3.dcm"], mislabelled_ct);
      (["out"; "CT1.2.840.3.dcm"], repaired);
      (["out"; "CT1.2.840.3.dcm"], repaired) ] ∧
  write_all ∅ run.1 !! ["out"; "NM1.2.840.3.dcm"] = Some mislabelled_ct ∧
  write_all ∅ run.1 !! ["out"; "CT1.2.840.3.dcm"] = Some repaired ∧
  size (write_all ∅ run.1) = 2.
Proof. cbv zeta. compute_done. Qed.

(** A PET header whose BodyPartExamined starts with the escape character
    and whose OtherPatientIDs holds two identifiers: pydicom reads the
    stored text "0042\A-17" as a [MultiValue].  It is followed by a valid
    CT image. *)
Definition several_patient_ids : Dataset :=
  <["BodyPartExamined" := VStr "/x1b$)C"]>
    (<["OtherPatientIDs" := VMulti ["0042"; "A-17"] "['0042', 'A-17']"]>
       (<["Modality" := VStr "PT"]> (<["SOPInstanceUID" := VStr "1.2.840.6"]> ∅))).

Definition two_patient_ids : filesystem :=
  [ (["in"], EDir);
    (["in"; "a.dcm"], EFile (Dicom several_patient_ids));
    (["in"; "b.dcm"], EFile (Dicom plain_ct));
    (["out"], EDir) ].

(** C7 at this header.  The rule does not return the dataset: it blanks
    BodyPartExamined, logs the line, and then raises [AttributeError] on the
    OtherPatientIDs element, whose two values do not start with "/".  In the
    pipeline the exception ends the run: nothing is written for the header
    and b.dcm is never checked. *)
Theorem fix_invalid_characters_several_ids :
  several_patient_ids !! "BodyPartExamined" = Some (VStr ("/" +:+ "x1b$)C")) ∧
  several_patient_ids !! "OtherPatientIDs" =
    Some (VMulti ["0042"; "A-17"] "['0042', 'A-17']") ∧
  fix_invalid_characters (Some several_patient_ids) =
    ([Status (invalid_character_message "BodyPartExamined")], Raise AttributeError) ∧
  perform_repairs two_patient_ids ["in"] ["out"] repair_methods =
    ([Status "Checking file a.dcm"; Dcmread ["in"; "a.dcm"];
      Status (invalid_character_message "BodyPartExamined")],
     Raise AttributeError).
Proof. compute_done. Qed.

(** * The theorems at concrete datasets and directories *)

(** A PET header whose BodyPartExamined starts with the escape character. *)
Definition escaped_body_part : Dataset :=
  <["BodyPartExamined" := VStr "/x1b$)C"]>
    (<["OtherPatientIDs" := VStr "0042"]>
       (<["Modality" := VStr "PT"]> (<["SOPInstanceUID" := VStr "1.2.840.6"]> ∅))).

Lemma fix_invalid_characters_spec_witness :
  (∃ tr ds',
     fix_invalid_characters (Some escaped_body_part) = (tr, Ok (Some ds')) ∧
     ds' !! "BodyPartExamined" = Some (VStr EmptyString) ∧
     Status (invalid_character_message "BodyPartExamined") ∈ tr ∧
     ds' !! "OtherPatientIDs" = escaped_body_part !! "OtherPatientIDs" ∧
     Status (invalid_character_message "OtherPatientIDs") ∉ tr) ∧
  (∃ tr, fix_invalid_characters (Some several_patient_ids) = (tr, Raise AttributeError)).
Proof.
  split.
  - destruct (proj1 (proj2 (fix_invalid_characters_spec escaped_body_part)))
      as (tr & ds' & Hrun & Hk & _).
    { intros k Hk. right.
      repeat (apply elem_of_cons in Hk as [->|Hk]);
        [by eexists | by eexists | by apply elem_of_nil in Hk]. }
    exists tr, ds'. split; [exact Hrun|].
    destruct (Hk "BodyPartExamined") as [Hb _]; [repeat constructor|].
    destruct (Hk "OtherPatientIDs") as [_ Ho]; [repeat constructor|].
    destruct Hb as (Hb1 & Hb2 & _); [by exists "x1b$)C"|].
    destruct Ho as [Ho1 Ho2]; [intros [r Hr]; vm_compute in Hr; discriminate|].
    done.
  - apply (proj2 (proj2 (fix_invalid_characters_spec several_patient_ids))
             "OtherPatientIDs" (VMulti ["0042"; "A-17"] "['0042', 'A-17']")).
    + repeat constructor.
    + reflexivity.
    + discriminate.
Defined.

(** A header labelled NM that carries both indicator elements. *)
Definition nm_with_both : Dataset :=
  <["Modality" := VStr "NM"]>
    (<["KVP" := VOther]>
       (<[RPIS := VOther]> (<["SOPInstanceUID" := VStr "1.2.840.7"]> ∅))).

Lemma fix_incorrect_modality_both_present_witness :
  fix_incorrect_modality (Some nm_with_both) =
    ([Status (modality_message "NM" "CT"); Status (modality_message "NM" "PT")],
     Ok (Some (<["Modality" := VStr "PT"]> nm_with_both))) ∧
  (<["Modality" := VStr "PT"]> nm_with_both) !! "Modality" = Some (VStr "PT").
Proof.
  apply (fix_incorrect_modality_both_present nm_with_both "NM").
  - reflexivity.
  - by eexists.
  - by eexists.
  - reflexivity.
Defined.

(** Two addresses: one with the word as the rule spells it, one without. *)
Definition mississauga_address : Dataset :=
  <["InstitutionAddress" := VStr "2200 Eglinton Ave W, Mississauga, ON"]>
    (<["Modality" := VStr "PT"]> (<["SOPInstanceUID" := VStr "1.2.840.8"]> ∅)).

Definition toronto_address : Dataset :=
  <["InstitutionAddress" := VStr "610 University Ave, Toronto, ON"]>
    (<["Modality" := VStr "CT"]> (<["SOPInstanceUID" := VStr "1.2.840.9"]> ∅)).

Lemma fix_incorrect_address_spec_witness :
  (fix_incorrect_address (Some mississauga_address) =
     ([Status (address_message "2200 Eglinton Ave W, Mississauga, ON")],
      Ok (Some (<["InstitutionAddress" := VStr EmptyString]> mississauga_address))) ∧
   str_in "2200 Eglinton Ave W, Mississauga, ON"
     (address_message "2200 Eglinton Ave W, Mississauga, ON") = true) ∧
  fix_incorrect_address (Some toronto_address) = ([], Ok (Some toronto_address)).
Proof.
  split.
  - apply (fix_incorrect_address_spec mississauga_address).
    + reflexivity.
    + by exists "2200 Eglinton Ave W, ", ", ON".
  - apply (fix_incorrect_address_spec toronto_address)
      with (a := "610 University Ave, Toronto, ON").
    + reflexivity.
    + intros Hin. apply str_in_spec in Hin. vm_compute in Hin. discriminate.
Defined.

(** A header whose Modality holds two values, with the CT indicator: the
    stored text "NM\PT", which pydicom reads as a [MultiValue]. *)
Definition several_modalities : Dataset :=
  <["Modality" := VMulti ["NM"; "PT"] "['NM', 'PT']"]>
    (<["KVP" := VOther]> (<["SOPInstanceUID" := VStr "1.2.840.10"]> ∅)).

Lemma repair_rules_frame_witness :
  (∀ k, k ≠ "BodyPartExamined" → k ≠ "OtherPatientIDs" →
     (<["BodyPartExamined" := VStr EmptyString]> escaped_body_part) !! k =
       escaped_body_part !! k) ∧
  ((∀ k, k ≠ "Modality" →
      (<["Modality" := VStr "PT"]> nm_with_both) !! k = nm_with_both !! k) ∧
   (∀ k, k ≠ "Modality" →
      (<["Modality" := VStr "CT"]> several_modalities) !! k =
        several_modalities !! k)) ∧
  (∀ k, k ≠ "InstitutionAddress" →
     (<["InstitutionAddress" := VStr EmptyString]> mississauga_address) !! k =
       mississauga_address !! k).
Proof.
  split; [|split; [split|]].
  - apply (proj1 (repair_rules_frame escaped_body_part))
      with (tr := [Status (invalid_character_message "BodyPartExamined")]).
    compute_done.
  - apply (proj1 (proj2 (repair_rules_frame nm_with_both)))
      with (tr := [Status (modality_message "NM" "CT");
                   Status (modality_message "NM" "PT")]).
    compute_done.
  - apply (proj1 (proj2 (repair_rules_frame several_modalities)))
      with (tr := [Status (modality_message "['NM', 'PT']" "CT")]).
    compute_done.
  - apply (proj2 (proj2 (repair_rules_frame mississauga_address)))
      with (tr := [Status (address_message "2200 Eglinton Ave W, Mississauga, ON")]).
    compute_done.
Defined.

(** A directory with a text file, a file that cannot be read and a file
    holding a dataset without elements. *)
Definition mixed_directory : filesystem :=
  [ (["in"], EDir);
    (["in"; "notes.txt"], EFile NotDicom);
    (["in"; "locked.dcm"], EFile Unreadable);
    (["in"; "empty.dcm"], EFile (Dicom ∅)) ].

Lemma load_header_spec_witness :
  (∃ tr', load_header mixed_directory ["in"; "notes.txt"] = (tr', Ok None) ∧
          repair_log tr' = ["notes.txt did not contain valid DICOM data.  Skipped."]) ∧
  (load_header mixed_directory ["in"; "locked.dcm"] =
     ([Dcmread ["in"; "locked.dcm"]], Raise PermissionError) ∧
   repair_log [Dcmread ["in"; "locked.dcm"]] = []) ∧
  (load_header mixed_directory ["in"; "gone.dcm"] =
     ([Dcmread ["in"; "gone.dcm"]], Raise FileNotFoundError) ∧
   repair_log [Dcmread ["in"; "gone.dcm"]] = []).
Proof.
  split; [|split].
  - apply (proj1 (load_header_spec mixed_directory ["in"; "notes.txt"]))
      with (tr := [Dcmread ["in"; "notes.txt"]]).
    apply (load_header_spec mixed_directory ["in"; "notes.txt"]). reflexivity.
  - apply (proj1 (proj2 (load_header_spec mixed_directory ["in"; "locked.dcm"]))).
    + apply (load_header_spec mixed_directory ["in"; "locked.dcm"]). reflexivity.
    + discriminate.
  - apply (proj1 (proj2 (load_header_spec mixed_directory ["in"; "gone.dcm"]))).
    + apply (load_header_spec mixed_directory ["in"; "gone.dcm"]). reflexivity.
    + discriminate.
Defined.

Lemma check_file_empty_dataset_witness :
  load_header mixed_directory ["in"; "empty.dcm"] =
    ([Dcmread ["in"; "empty.dcm"]], Ok (Some ∅)) ∧
  check_file mixed_directory (λ _, raise KeyError) ["in"; "empty.dcm"] =
    ([Status "Checking file empty.dcm"; Dcmread ["in"; "empty.dcm"]], Ok tt) ∧
  repair_log (check_file mixed_directory (λ _, raise KeyError) ["in"; "empty.dcm"]).1 =
    ["Checking file empty.dcm"].
Proof.
  apply (check_file_empty_dataset mixed_directory (λ _, raise KeyError)
           ["in"; "empty.dcm"] ∅); reflexivity.
Defined.

(** * Further properties of the repair functions *)

(** ** What a rule emits *)

(** A trace made of status lines only: no file is opened and none written. *)
Definition status_only (tr : list event) : Prop :=
  Forall (λ ev, ∃ m, ev = Status m) tr.

Lemma status_only_nil : status_only [].
Proof. constructor. Qed.

Lemma status_only_bind {A B} (m : M A) (k : A → M B) :
  status_only m.1 → (∀ a, status_only (k a).1) → status_only (bind m k).1.
Proof.
  intros Hm Hk. unfold bind. destruct m as [t [a|e]]; cbn in *; [|done].
  specialize (Hk a). destruct (k a) as [t2 r]. cbn in *.
  by apply Forall_app.
Qed.

Lemma status_only_status (msg : string) : status_only (status_output msg).1.
Proof. repeat constructor. by exists msg. Qed.

Lemma status_only_files (tr : list event) :
  status_only tr → files_read tr = [] ∧ files_saved tr = [].
Proof.
  induction 1 as [|ev tr [m ->] _ [IH1 IH2]]; [done|].
  unfold files_read, files_saved in *. cbn. by rewrite IH1, IH2.
Qed.

Lemma in_dataset_status_only (k : string) (dataset : option Dataset) :
  status_only (in_dataset k dataset).1.
Proof. destruct dataset; apply status_only_nil. Qed.

Lemma data_element_value_status_only (ds : Dataset) (k : string) :
  status_only (data_element_value ds k).1.
Proof. unfold data_element_value. destruct (ds !! k); apply status_only_nil. Qed.

Ltac status_only_step :=
  first
    [ apply status_only_nil
    | apply status_only_status
    | apply in_dataset_status_only
    | apply data_element_value_status_only
    | apply status_only_bind; [|intros ?]
    | match goal with
      | |- status_only (fst (match ?x with _ => _ end)) => destruct x
      | |- status_only (fst (if ?b then _ else _)) => destruct b
      end ].

Lemma fix_invalid_element_status_only (k : string) (dataset : option Dataset) :
  status_only (fix_invalid_element k dataset).1.
Proof. unfold fix_invalid_element. repeat status_only_step. Qed.

Lemma fix_invalid_elements_status_only (ks : list string) (dataset : option Dataset) :
  status_only (fix_invalid_elements ks dataset).1.
Proof.
  revert dataset. induction ks as [|k ks IH]; intros dataset; cbn [fix_invalid_elements].
  - apply status_only_nil.
  - apply status_only_bind; [apply fix_invalid_element_status_only | apply IH].
Qed.

Lemma repair_methods_status_lines (method : repair_method) (dataset : option Dataset) :
  method ∈ repair_methods → status_only (method dataset).1.
Proof.
  unfold repair_methods. intros Hin.
  repeat (apply elem_of_cons in Hin as [->|Hin]).
  - apply fix_invalid_elements_status_only.
  - unfold fix_incorrect_modality. repeat status_only_step.
  - unfold fix_incorrect_address. repeat status_only_step.
  - by apply elem_of_nil in Hin.
Qed.

Lemma repair_methods_save_nothing (method : repair_method) (dataset : option Dataset)
    (t : list event) (r : outcome (option Dataset)) :
  method ∈ repair_methods → method dataset = (t, r) → files_saved t = [].
Proof.
  intros Hin Hrun. pose proof (repair_methods_status_lines method dataset Hin) as Hs.
  rewrite Hrun in Hs. by apply status_only_files.
Qed.

(** X1.  Whatever they are called on, a dataset or [None], the three repair
    functions of the notebook's list only emit status lines: they open no
    file and write none. *)
Theorem repair_methods_status_only (dataset : option Dataset) :
  Forall (λ method : repair_method,
            status_only (method dataset).1 ∧
            files_read (method dataset).1 = [] ∧
            files_saved (method dataset).1 = [])
         repair_methods.
Proof.
  apply Forall_forall. intros method Hin.
  pose proof (repair_methods_status_lines method dataset Hin) as Hs.
  split; [done|]. by apply status_only_files.
Qed.

(** ** The elements of the returned dataset *)

Lemma insert_present_dom (ds : Dataset) (k : string) (v w : value) :
  ds !! k = Some w → dom (<[k := v]> ds) = dom ds.
Proof.
  intros Hk. rewrite dom_insert_L. apply elem_of_dom_2 in Hk.
  apply set_eq. intros x. rewrite elem_of_union, elem_of_singleton.
  split; [intros [->|?]; done | auto].
Qed.

Lemma fix_invalid_element_result_dom (k : string) (ds ds' : Dataset) tr :
  fix_invalid_element k (Some ds) = (tr, Ok (Some ds')) → dom ds' = dom ds.
Proof.
  destruct (fix_invalid_element_split k ds) as [Ht | (v & Hk & Hv)].
  - rewrite (fix_invalid_element_text k ds Ht).
    destruct (starts_with_slash ds k) eqn:Hs; intros [= _ <-]; [|done].
    apply starts_with_slash_iff in Hs as [r Hr]. by eapply insert_present_dom.
  - by rewrite (fix_invalid_element_no_text k ds v Hk Hv).
Qed.

Lemma fix_invalid_characters_dom (ds ds' : Dataset) tr :
  fix_invalid_characters (Some ds) = (tr, Ok (Some ds')) → dom ds' = dom ds.
Proof.
  intros Hrun.
  unfold fix_invalid_characters in Hrun. cbn [fix_invalid_elements] in Hrun.
  destruct (fix_invalid_element_cases "BodyPartExamined" ds)
    as [(t1 & e & H1) | (t1 & ds1 & H1)]; rewrite H1 in Hrun; [done|].
  unfold bind at 1 in Hrun.
  destruct (fix_invalid_element_cases "OtherPatientIDs" ds1)
    as [(t2 & e & H2) | (t2 & ds2 & H2)]; rewrite H2 in Hrun; [done|].
  cbn in Hrun. injection Hrun as _ <-.
  apply fix_invalid_element_result_dom in H1, H2. congruence.
Qed.

(** X2.  A repair function that returns a dataset returns one with exactly
    the elements of its input: it changes values only, and neither adds an
    element (not even one of its targets, when absent) nor removes one. *)
Theorem repair_methods_keep_elements (ds : Dataset) :
  (∀ tr ds', fix_invalid_characters (Some ds) = (tr, Ok (Some ds')) → dom ds' = dom ds) ∧
  (∀ tr ds', fix_incorrect_modality (Some ds) = (tr, Ok (Some ds')) → dom ds' = dom ds) ∧
  (∀ tr ds', fix_incorrect_address (Some ds) = (tr, Ok (Some ds')) → dom ds' = dom ds).
Proof.
  split; [|split]; intros tr ds' Hrun.
  - by apply fix_invalid_characters_dom with tr.
  - destruct (ds !! "Modality") as [v|] eqn:Hm.
    + destruct (decide (v = VOther)) as [->|Hv].
      * rewrite (fix_incorrect_modality_other ds Hm) in Hrun.
        case_match; [done|]. by injection Hrun as _ <-.
      * rewrite (fix_incorrect_modality_run ds v Hm Hv) in Hrun. cbn zeta in Hrun.
        injection Hrun as _ <-.
        repeat case_match; try done; by eapply insert_present_dom.
    + by rewrite (fix_incorrect_modality_absent ds Hm) in Hrun.
  - destruct (ds !! "InstitutionAddress") as [v|] eqn:Ha.
    + destruct (decide (v = VOther)) as [->|Hv].
      * by rewrite (fix_incorrect_address_other ds Ha) in Hrun.
      * rewrite (fix_incorrect_address_run ds v Ha Hv) in Hrun.
        case_match; injection Hrun as _ <-; [by eapply insert_present_dom | done].
    + rewrite (fix_incorrect_address_absent ds Ha) in Hrun.
      by injection Hrun as _ <-.
Qed.

(** ** Applying a rule to its own result *)

Lemma fix_invalid_characters_ok_text (ds ds' : Dataset) tr :
  fix_invalid_characters (Some ds) = (tr, Ok (Some ds')) →
  text_or_absent ds "BodyPartExamined" ∧ text_or_absent ds "OtherPatientIDs".
Proof.
  unfold fix_invalid_characters. cbn [fix_invalid_elements]. intros Hrun.
  destruct (fix_invalid_element_split "BodyPartExamined" ds)
    as [Hb | (v & Hv & Hno)];
    [|by rewrite (fix_invalid_element_no_text _ ds v Hv Hno) in Hrun].
  split; [done|].
  destruct (fix_invalid_element_split "OtherPatientIDs" ds)
    as [Ho | (v & Hv & Hno)]; [done|].
  rewrite (fix_invalid_element_text _ ds Hb) in Hrun.
  destruct (starts_with_slash ds "BodyPartExamined"); unfold bind at 1 in Hrun;
    rewrite (fix_invalid_element_no_text "OtherPatientIDs" _ v) in Hrun
      by (by rewrite ?lookup_insert_ne); done.
Qed.

(** X3.  The Invalid Character Cleanup is idempotent: called on a dataset it
    has returned, it returns the same dataset and emits nothing. *)
Theorem fix_invalid_characters_idempotent (ds ds' : Dataset) tr :
  fix_invalid_characters (Some ds) = (tr, Ok (Some ds')) →
  fix_invalid_characters (Some ds') = ([], Ok (Some ds')).
Proof.
  intros Hrun.
  destruct (fix_invalid_characters_ok_text ds ds' tr Hrun) as [Hb Ho].
  destruct (fix_invalid_characters_run ds Hb Ho) as (d1 & Heq & Hlook).
  rewrite Heq in Hrun. injection Hrun as _ <-.
  assert (∀ k, k ∈ ["BodyPartExamined"; "OtherPatientIDs"] →
            text_or_absent d1 k ∧ starts_with_slash d1 k = false) as Hclean.
  { intros k Hk. specialize (Hlook k Hk).
    assert (text_or_absent ds k) as Hk'
      by (repeat (apply elem_of_cons in Hk as [->|Hk]); try done;
          by apply elem_of_nil in Hk).
    unfold starts_with_slash, text_or_absent in *.
    rewrite Hlook. destruct (ds !! k) as [[s|l t|]|] eqn:E; try done.
    destruct (startswith s "/") eqn:Es; [done|]. by rewrite Es. }
  destruct (Hclean "BodyPartExamined") as [Hb1 Hs1]; [repeat constructor|].
  destruct (Hclean "OtherPatientIDs") as [Ho1 Hs2]; [repeat constructor|].
  destruct (fix_invalid_characters_run d1 Hb1 Ho1) as (d2 & Heq2 & Hlook2).
  cbn [List.filter] in Heq2. rewrite Hs1, Hs2 in Heq2.
  rewrite Heq2. cbn [fmap list_fmap]. do 3 f_equal. apply map_eq. intros k.
  destruct (decide (k = "BodyPartExamined")) as [->|Hnb].
  { rewrite Hlook2 by repeat constructor. by rewrite Hs1. }
  destruct (decide (k = "OtherPatientIDs")) as [->|Hno].
  { rewrite Hlook2 by repeat constructor. by rewrite Hs2. }
  by eapply fix_invalid_characters_frame.
Qed.

(** X4.  The Mismatched Address Cleanup is idempotent. *)
Theorem fix_incorrect_address_idempotent (ds ds' : Dataset) tr :
  fix_incorrect_address (Some ds) = (tr, Ok (Some ds')) →
  fix_incorrect_address (Some ds') = ([], Ok (Some ds')).
Proof.
  intros Hrun. destruct (ds !! "InstitutionAddress") as [v|] eqn:Ha.
  - destruct (decide (v = VOther)) as [->|Hv];
      [by rewrite (fix_incorrect_address_other ds Ha) in Hrun|].
    rewrite (fix_incorrect_address_run ds v Ha Hv) in Hrun.
    destruct (holds "Mississauga" v) eqn:E; injection Hrun as _ <-.
    + by rewrite (fix_incorrect_address_text _ EmptyString)
        by apply lookup_insert_eq.
    + by rewrite (fix_incorrect_address_run ds v Ha Hv), E.
  - rewrite (fix_incorrect_address_absent ds Ha) in Hrun.
    injection Hrun as _ <-. by apply fix_incorrect_address_absent.
Qed.

Lemma fix_incorrect_modality_relabelled (ds : Dataset) (m : string) (w : value) :
  ds !! "Modality" = Some w →
  let kvp := bool_decide (is_Some (ds !! "KVP")) in
  let rpis := bool_decide (is_Some (ds !! RPIS)) in
  let ct := kvp && negb (str_in "CT" m) in
  let pt := rpis && negb (str_in "PT" m) in
  fix_incorrect_modality (Some (<["Modality" := VStr m]> ds)) =
    ((if ct then [Status (modality_message m "CT")] else []) ++
     (if pt then [Status (modality_message m "PT")] else []),
     Ok (Some (if pt then <["Modality" := VStr "PT"]> ds
               else if ct then <["Modality" := VStr "CT"]> ds
               else <["Modality" := VStr m]> ds))).
Proof.
  intros Hw. cbn zeta.
  rewrite (fix_incorrect_modality_text (<["Modality" := VStr m]> ds) m)
    by apply lookup_insert_eq.
  cbn zeta. unfold RPIS. rewrite !lookup_insert_ne by done.
  by rewrite !insert_insert_eq.
Qed.

(** X5.  The Modality Correction is idempotent on a dataset that carries at
    most one of the two indicator elements: called on a dataset it has
    returned, it returns the same dataset and emits nothing. *)
Theorem fix_incorrect_modality_idempotent (ds ds' : Dataset) tr :
  ¬ (is_Some (ds !! "KVP") ∧ is_Some (ds !! RPIS)) →
  fix_incorrect_modality (Some ds) = (tr, Ok (Some ds')) →
  fix_incorrect_modality (Some ds') = ([], Ok (Some ds')).
Proof.
  intros Hone Hrun. destruct (ds !! "Modality") as [v|] eqn:Hm;
    [|by rewrite (fix_incorrect_modality_absent ds Hm) in Hrun].
  destruct (decide (v = VOther)) as [->|Hv].
  - rewrite (fix_incorrect_modality_other ds Hm) in Hrun.
    destruct (bool_decide (is_Some (ds !! "KVP")) || bool_decide (is_Some (ds !! RPIS)))
      eqn:E; [done|].
    injection Hrun as _ <-. by rewrite (fix_incorrect_modality_other ds Hm), E.
  - rewrite (fix_incorrect_modality_run ds v Hm Hv) in Hrun. cbn zeta in Hrun.
    injection Hrun as _ <-.
    destruct (bool_decide (is_Some (ds !! "KVP"))) eqn:Hk;
      destruct (bool_decide (is_Some (ds !! RPIS))) eqn:Hr.
    + apply bool_decide_eq_true in Hk, Hr. tauto.
    + cbn [andb]. destruct (holds "CT" v) eqn:Hct; cbn [negb].
      * rewrite (fix_incorrect_modality_run ds v Hm Hv). cbn zeta.
        by rewrite Hk, Hr, Hct.
      * rewrite (fix_incorrect_modality_relabelled ds "CT" _ Hm). cbn zeta.
        by rewrite Hk, Hr.
    + cbn [andb]. destruct (holds "PT" v) eqn:Hpt; cbn [negb].
      * rewrite (fix_incorrect_modality_run ds v Hm Hv). cbn zeta.
        by rewrite Hk, Hr, Hpt.
      * rewrite (fix_incorrect_modality_relabelled ds "PT" _ Hm). cbn zeta.
        by rewrite Hk, Hr.
    + cbn [andb]. rewrite (fix_incorrect_modality_run ds v Hm Hv). cbn zeta.
      by rewrite Hk, Hr.
Qed.

(** X6.  With both indicator elements present the Modality Correction never
    settles, unless the Modality string already contains both "CT" and "PT":
    the rule relabels the dataset, relabels its own result the other way
    (logging a correction each time), and a third call gives the result of
    the first again. *)
Theorem fix_incorrect_modality_alternates (ds : Dataset) (m : string) :
  ds !! "Modality" = Some (VStr m) →
  is_Some (ds !! "KVP") →
  is_Some (ds !! RPIS) →
  str_in "CT" m && str_in "PT" m = false →
  ∃ t1 t2 t3 d1 d2,
    fix_incorrect_modality (Some ds) = (t1, Ok (Some d1)) ∧
    fix_incorrect_modality (Some d1) = (t2, Ok (Some d2)) ∧
    fix_incorrect_modality (Some d2) = (t3, Ok (Some d1)) ∧
    d1 ≠ d2 ∧ t1 ≠ [] ∧ t2 ≠ [] ∧ t3 ≠ [].
Proof.
  intros Hm Hk' Hr' Hnot.
  assert (bool_decide (is_Some (ds !! "KVP")) = true) as Hk
    by (by apply bool_decide_eq_true_2).
  assert (bool_decide (is_Some (ds !! RPIS)) = true) as Hr
    by (by apply bool_decide_eq_true_2).
  assert (<["Modality" := VStr "PT"]> ds ≠ <["Modality" := VStr "CT"]> ds) as Hne.
  { intros Heq. apply (f_equal (lookup "Modality")) in Heq.
    by rewrite !lookup_insert_eq in Heq. }
  destruct (str_in "PT" m) eqn:Hpt.
  - destruct (str_in "CT" m) eqn:Hct; [done|].
    exists [Status (modality_message m "CT")],
           [Status (modality_message "CT" "PT")],
           [Status (modality_message "PT" "CT")],
           (<["Modality" := VStr "CT"]> ds), (<["Modality" := VStr "PT"]> ds).
    rewrite (fix_incorrect_modality_text ds m Hm).
    rewrite !(fix_incorrect_modality_relabelled ds _ _ Hm). cbn zeta.
    rewrite Hk, Hr, Hct, Hpt. cbn. by repeat split.
  - exists ((if str_in "CT" m then [] else [Status (modality_message m "CT")]) ++
            [Status (modality_message m "PT")]),
           [Status (modality_message "PT" "CT")],
           [Status (modality_message "CT" "PT")],
           (<["Modality" := VStr "PT"]> ds), (<["Modality" := VStr "CT"]> ds).
    rewrite (fix_incorrect_modality_text ds m Hm).
    rewrite !(fix_incorrect_modality_relabelled ds _ _ Hm). cbn zeta.
    rewrite Hk, Hr, Hpt. cbn [andb negb].
    repeat split; try done; by destruct (str_in "CT" m).
Qed.

(** * Further properties of the Output Writer *)

Lemma list_of_append (a b : string) :
  list_ascii_of_string (a +:+ b) = list_ascii_of_string a ++ list_ascii_of_string b.
Proof.
  induction a as [|c a IH]; [done|].
  rewrite append_String. cbn [list_ascii_of_string]. by rewrite IH.
Qed.

Lemma list_of_string_inj (a b : string) :
  list_ascii_of_string a = list_ascii_of_string b → a = b.
Proof.
  intros H. rewrite <- (string_of_list_ascii_of_string a),
    <- (string_of_list_ascii_of_string b). by rewrite H.
Qed.

Lemma length_list_of_string (a : string) :
  length (list_ascii_of_string a) = String.length a.
Proof. induction a as [|c a IH]; cbn; [done | by rewrite IH]. Qed.


(** ** The name of the file *)

(** The file name in terms of the two elements it is built from. *)
Lemma build_dicom_file_name_text (ds : Dataset) (m u : string) :
  ds !! "Modality" = Some (VStr m) → ds !! "SOPInstanceUID" = Some (VStr u) →
  build_dicom_file_name ds = ([], Ok (m +:+ u +:+ ".dcm")).
Proof.
  intros Hm Hu. unfold build_dicom_file_name, data_element_value.
  rewrite Hm, Hu. reflexivity.
Qed.

Lemma build_dicom_file_name_trace (ds : Dataset) :
  (build_dicom_file_name ds).1 = [].
Proof.
  unfold build_dicom_file_name, data_element_value.
  by destruct (ds !! "Modality") as [[m|l t|]|],
              (ds !! "SOPInstanceUID") as [[u|l' t'|]|].
Qed.


(** X7.  [build_dicom_file_name] returns a name exactly when the dataset has
    both the Modality and the SOPInstanceUID element with string values; it
    raises [KeyError] exactly when one of the two elements is missing (even
    if the other holds a value that is not a string), and it emits nothing. *)
Theorem build_dicom_file_name_result (ds : Dataset) :
  (build_dicom_file_name ds).1 = [] ∧
  ((∃ n, (build_dicom_file_name ds).2 = Ok n) ↔
     ∃ m u, ds !! "Modality" = Some (VStr m) ∧ ds !! "SOPInstanceUID" = Some (VStr u)) ∧
  ((build_dicom_file_name ds).2 = Raise KeyError ↔
     ds !! "Modality" = None ∨ ds !! "SOPInstanceUID" = None).
Proof.
  unfold build_dicom_file_name, data_element_value.
  destruct (ds !! "Modality") as [[m|l t|]|],
           (ds !! "SOPInstanceUID") as [[u|l' t'|]|];
    cbn; (split; [done|]); split; split;
    try done; try (intros [n Hn]; done); try (intros (m' & u' & H1 & H2); done);
    try (intros [H|H]; done); eauto.
Qed.

(** X8.  Equal file names come from equal elements, as soon as the two
    Modality values have the same length (as the two-letter modality codes
    have): the SOPInstanceUID values are then equal, and so are the Modality
    values. *)
Theorem build_dicom_file_name_inj (ds1 ds2 : Dataset) (m1 m2 u1 u2 n : string) :
  ds1 !! "Modality" = Some (VStr m1) → ds1 !! "SOPInstanceUID" = Some (VStr u1) →
  ds2 !! "Modality" = Some (VStr m2) → ds2 !! "SOPInstanceUID" = Some (VStr u2) →
  String.length m1 = String.length m2 →
  (build_dicom_file_name ds1).2 = Ok n →
  (build_dicom_file_name ds2).2 = Ok n →
  m1 = m2 ∧ u1 = u2.
Proof.
  intros Hm1 Hu1 Hm2 Hu2 Hlen.
  rewrite (build_dicom_file_name_text ds1 m1 u1 Hm1 Hu1).
  rewrite (build_dicom_file_name_text ds2 m2 u2 Hm2 Hu2).
  cbn. intros [= <-] [= Heq].
  apply (f_equal list_ascii_of_string) in Heq.
  rewrite !list_of_append in Heq.
  apply app_inj_1 in Heq as [Hm Hrest];
    [|by rewrite !length_list_of_string].
  apply app_inv_tail in Hrest.
  split; by apply list_of_string_inj.
Qed.

(** ** The place of the file *)



(** A name with "/" leads below the output directory, or away from it. *)
Example joinpath_with_separator :
  joinpath ["out"] "CT1.2.840.5.dcm" = ["out"; "CT1.2.840.5.dcm"] ∧
  joinpath ["out"] "CT/1.2.840.5.dcm" = ["out"; "CT"; "1.2.840.5.dcm"] ∧
  joinpath ["out"] "/tmp/1.2.840.5.dcm" = ["tmp"; "1.2.840.5.dcm"].
Proof. compute_done. Qed.


Lemma save_dicom_dataset_cases (fs : filesystem) (ds : Dataset) (output_path : path) :
  (∃ e, save_dicom_dataset fs ds output_path = ([], Raise e) ∧
        ((build_dicom_file_name ds).2 = Raise e ∨
         ∃ n, (build_dicom_file_name ds).2 = Ok n ∧ e = OSError ∧
              writable fs (joinpath output_path n) = false)) ∨
  (∃ n, save_dicom_dataset fs ds output_path =
          ([SaveAs (joinpath output_path n) ds], Ok tt) ∧
        (build_dicom_file_name ds).2 = Ok n ∧
        writable fs (joinpath output_path n) = true).
Proof.
  unfold save_dicom_dataset, save_as.
  pose proof (build_dicom_file_name_trace ds) as Htr.
  destruct (build_dicom_file_name ds) as [t [n|e]]; cbn in Htr; subst t.
  - change (@pair (list event) (outcome string) [] (Ok n)) with (ret n).
    rewrite bind_ret_l.
    destruct (writable fs (joinpath output_path n)) eqn:Hw.
    + right. by exists n.
    + left. exists OSError. split; [done|]. right. by exists n.
  - left. exists e. split; [done|]. by left.
Qed.

(** [save_dicom_dataset] either raises before anything is written, for want
    of a name or of a place the file system takes the file at, or writes
    exactly one file: the dataset it was given, at [output_path / name] for
    the name [build_dicom_file_name] gives it. *)
Theorem save_dicom_dataset_result (fs : filesystem) (ds : Dataset) (output_path : path) :
  (∃ e, save_dicom_dataset fs ds output_path = ([], Raise e) ∧
        ((build_dicom_file_name ds).2 = Raise e ∨
         ∃ n, (build_dicom_file_name ds).2 = Ok n ∧ e = OSError ∧
              writable fs (joinpath output_path n) = false)) ∨
  (∃ n, save_dicom_dataset fs ds output_path =
          ([SaveAs (joinpath output_path n) ds], Ok tt) ∧
        (build_dicom_file_name ds).2 = Ok n ∧
        writable fs (joinpath output_path n) = true).
Proof. apply save_dicom_dataset_cases. Qed.

(** * Further properties of the Repair Pipeline *)

(** ** What a run writes *)

(** A property of the events of a loop holds of the events of every turn. *)
Lemma for_each_Forall {A} (P : event → Prop) (l : list A) (body : A → M unit) :
  (∀ x, Forall P (body x).1) → Forall P (for_each l body).1.
Proof.
  intros Hbody. induction l as [|x l IH]; [constructor|].
  rewrite for_each_trace. apply Forall_app. split; [apply Hbody|].
  destruct (body x).2; [done | constructor].
Qed.

Lemma bind_Forall {A B} (P : event → Prop) (m : M A) (k : A → M B) :
  Forall P m.1 → (∀ a, Forall P (k a).1) → Forall P (bind m k).1.
Proof.
  intros Hm Hk. unfold bind. destruct m as [t [a|e]]; cbn in *; [|done].
  specialize (Hk a). destruct (k a) as [t2 r]. cbn in *.
  by apply Forall_app.
Qed.

Lemma load_header_trace (fs : filesystem) (p : path) :
  (load_header fs p).1 = [Dcmread p] ∨
  (load_header fs p).1 =
    [Dcmread p; Status (name p +:+ " did not contain valid DICOM data.  Skipped.")].
Proof.
  unfold load_header, dcmread.
  destruct (stat fs p) as [[[ds| |]| |]|]; cbn; auto.
Qed.

(** The events of one turn of the scanner, for a property that holds of the
    scanner's own events. *)
Lemma check_file_Forall (P : event → Prop) (fs : filesystem)
    (body : Dataset → M unit) (p : path) :
  (∀ m, P (Status m)) → (is_file fs p = true → P (Dcmread p)) →
  (∀ ds, Forall P (body ds).1) →
  Forall P (check_file fs body p).1.
Proof.
  intros Hs Hr Hbody. unfold check_file.
  destruct (is_file fs p); [|constructor].
  apply bind_Forall; [repeat constructor; apply Hs|]. intros _.
  apply bind_Forall.
  - destruct (load_header_trace fs p) as [-> | ->]; repeat constructor; auto.
  - intros [ds|]; [|constructor].
    destruct (truthy (Some ds)); [apply Hbody | constructor].
Qed.

(** The event is not a write. *)
Definition not_saving (ev : event) : Prop :=
  match ev with SaveAs _ _ => False | _ => True end.

(** The event, if a write, writes the dataset at [output_path / name], for
    the name built from that dataset, where the file system takes it. *)
Definition saves_under (fs : filesystem) (output_path : path) (ev : event) : Prop :=
  match ev with
  | SaveAs p ds =>
      ∃ n, (build_dicom_file_name ds).2 = Ok n ∧ p = joinpath output_path n ∧
           writable fs p = true
  | _ => True
  end.

Lemma Forall_files_saved (P : event → Prop) (tr : list event) (p : path) (ds : Dataset) :
  Forall P tr → (p, ds) ∈ files_saved tr → P (SaveAs p ds).
Proof.
  intros Hall Hin. unfold files_saved in Hin.
  apply list_elem_of_omap in Hin as (ev & Hev & Heq).
  rewrite Forall_forall in Hall. specialize (Hall ev Hev).
  destruct ev; try done. by injection Heq as -> ->.
Qed.

Lemma not_saving_files_saved (tr : list event) :
  Forall not_saving tr → files_saved tr = [].
Proof.
  induction 1 as [|ev tr Hev _ IH]; [done|].
  unfold files_saved in *. cbn. rewrite IH. by destruct ev.
Qed.

(** X9.  With an empty list of repair functions the pipeline writes nothing,
    whatever the input directory holds: the call of the writer sits inside
    the loop over the repair functions. *)
Theorem perform_repairs_no_methods (fs : filesystem) (input_path output_path : path) :
  files_saved (perform_repairs fs input_path output_path []).1 = [].
Proof.
  apply not_saving_files_saved. unfold perform_repairs, get_dicom_images.
  apply for_each_Forall. intros p.
  apply check_file_Forall; [done | done |]. intros ds.
  cbn [apply_repairs]. rewrite bind_ret_l. constructor.
Qed.

Lemma status_only_Forall (P : event → Prop) (tr : list event) :
  (∀ m, P (Status m)) → status_only tr → Forall P tr.
Proof.
  intros HP Hs. unfold status_only in Hs.
  eapply Forall_impl; [exact Hs|]. by intros ev [m ->].
Qed.

Lemma save_dicom_dataset_saves_under (fs : filesystem) (ds : Dataset)
    (output_path : path) :
  Forall (saves_under fs output_path) (save_dicom_dataset fs ds output_path).1.
Proof.
  destruct (save_dicom_dataset_cases fs ds output_path)
    as [(e & -> & _) | (n & -> & Hn & Hw)]; [constructor|].
  repeat constructor. by exists n.
Qed.

Lemma apply_repairs_saves_under (fs : filesystem) (methods : list repair_method)
    (output_path : path) (dataset : option Dataset) :
  (∀ method, method ∈ methods → ∀ d, status_only (method d).1) →
  Forall (saves_under fs output_path) (apply_repairs fs methods output_path dataset).1.
Proof.
  revert dataset. induction methods as [|method rest IH]; intros dataset Hm;
    cbn [apply_repairs]; [constructor|].
  apply bind_Forall.
  - apply status_only_Forall; [done|]. apply Hm. by left.
  - intros d. apply bind_Forall.
    + destruct d as [ds|]; [|constructor].
      destruct (truthy (Some ds)); [|constructor].
      apply save_dicom_dataset_saves_under.
    + intros _. apply IH. intros m Hin. apply Hm. by right.
Qed.

Lemma perform_repairs_Forall_saves_under (fs : filesystem)
    (input_path output_path : path) (methods : list repair_method) :
  (∀ method, method ∈ methods → ∀ d, status_only (method d).1) →
  Forall (saves_under fs output_path)
    (perform_repairs fs input_path output_path methods).1.
Proof.
  intros Hm. unfold perform_repairs, get_dicom_images.
  apply for_each_Forall. intros q.
  apply check_file_Forall; try done. intros d.
  apply bind_Forall; [by apply apply_repairs_saves_under | constructor].
Qed.


(** ** One dataset through the notebook's list *)

Lemma size_lookup_ne_0 (ds : Dataset) (k : string) (v : value) :
  ds !! k = Some v → size ds ≠ 0.
Proof.
  intros Hk Hsize. apply map_size_empty_iff in Hsize. subst ds.
  by rewrite lookup_empty in Hk.
Qed.

Lemma files_saved_app (t1 t2 : list event) :
  files_saved (t1 ++ t2) = files_saved t1 ++ files_saved t2.
Proof. unfold files_saved. apply omap_app. Qed.

Lemma files_saved_save (p : path) (ds : Dataset) (tr : list event) :
  files_saved (SaveAs p ds :: tr) = (p, ds) :: files_saved tr.
Proof. done. Qed.

(** One turn of the inner loop, for a rule that returns a dataset the writer
    can name and the file system takes. *)
Lemma apply_repairs_step (fs : filesystem) (method : repair_method)
    (rest : list repair_method) (output_path : path) (d : option Dataset)
    (t : list event) (d' : Dataset) (m u : string) :
  method d = (t, Ok (Some d')) →
  d' !! "Modality" = Some (VStr m) → d' !! "SOPInstanceUID" = Some (VStr u) →
  writable fs (joinpath output_path (m +:+ u +:+ ".dcm")) = true →
  apply_repairs fs (method :: rest) output_path d =
    (t ++ SaveAs (joinpath output_path (m +:+ u +:+ ".dcm")) d' ::
       (apply_repairs fs rest output_path (Some d')).1,
     (apply_repairs fs rest output_path (Some d')).2).
Proof.
  intros Hrun Hm Hu Hw. cbn [apply_repairs]. rewrite Hrun. unfold bind at 1.
  unfold truthy. pose proof (size_lookup_ne_0 d' _ _ Hm) as Hsize.
  destruct (size d') as [|k]; [done|]. cbn [Nat.eqb negb].
  unfold save_dicom_dataset, save_as.
  rewrite (build_dicom_file_name_text d' m u Hm Hu).
  change (@pair (list event) (outcome string) [] (Ok (m +:+ u +:+ ".dcm")))
    with (ret (m +:+ u +:+ ".dcm")).
  rewrite bind_ret_l, Hw. rewrite bind_emit. cbn [fst snd].
  by destruct (apply_repairs fs rest output_path (Some d')).
Qed.

(** X11.  A dataset whose Modality and SOPInstanceUID are strings, and whose
    other inspected elements hold strings when present, in a file system
    that takes a file under the name built from its Modality and under the
    names built from "CT" and from "PT": the dataset goes through the
    notebook's three rules without exception and is written three times,
    once after the first rule, under the name built from the Modality it
    came with, then twice under the name built from the final Modality.  The
    last write holds the final dataset, so the file under the final name
    holds the fully repaired dataset. *)
Theorem apply_repairs_notebook_list (fs : filesystem) (ds : Dataset) (m u : string)
    (output_path : path) :
  ds !! "Modality" = Some (VStr m) →
  ds !! "SOPInstanceUID" = Some (VStr u) →
  text_or_absent ds "BodyPartExamined" →
  text_or_absent ds "OtherPatientIDs" →
  text_or_absent ds "InstitutionAddress" →
  (∀ m', m' ∈ [m; "CT"; "PT"] →
     writable fs (joinpath output_path (m' +:+ u +:+ ".dcm")) = true) →
  ∃ tr d1 d2 final m',
    apply_repairs fs repair_methods output_path (Some ds) = (tr, Ok (Some final)) ∧
    final !! "Modality" = Some (VStr m') ∧
    final !! "SOPInstanceUID" = Some (VStr u) ∧
    files_saved tr =
      [ (joinpath output_path (m +:+ u +:+ ".dcm"), d1);
        (joinpath output_path (m' +:+ u +:+ ".dcm"), d2);
        (joinpath output_path (m' +:+ u +:+ ".dcm"), final) ] ∧
    ∀ out, write_all out tr !! (joinpath output_path (m' +:+ u +:+ ".dcm")) =
             Some final.
Proof.
  intros Hm Hu Hb Ho Ha Hw.
  (* the Invalid Character Cleanup *)
  destruct (fix_invalid_characters_run ds Hb Ho) as (dA & HA & _).
  set (tA := Status <$> _) in HA.
  pose proof (fix_invalid_characters_frame ds dA _ "Modality" HA) as HmA.
  pose proof (fix_invalid_characters_frame ds dA _ "SOPInstanceUID" HA) as HuA.
  pose proof (fix_invalid_characters_frame ds dA _ "InstitutionAddress" HA) as HaA.
  rewrite Hm in HmA by done. rewrite Hu in HuA by done.
  specialize (HmA ltac:(done) ltac:(done)).
  specialize (HuA ltac:(done) ltac:(done)).
  specialize (HaA ltac:(done) ltac:(done)).
  (* the Modality Correction *)
  pose proof (fix_incorrect_modality_text dA m HmA) as HB. cbn zeta in HB.
  set (ct := bool_decide (is_Some (dA !! "KVP")) && negb (str_in "CT" m)) in HB.
  set (pt := bool_decide (is_Some (dA !! RPIS)) && negb (str_in "PT" m)) in HB.
  set (dB := if pt then <["Modality" := VStr "PT"]> dA
             else if ct then <["Modality" := VStr "CT"]> dA else dA) in HB.
  set (tB := _ ++ _) in HB.
  set (m' := if pt then "PT" else if ct then "CT" else m).
  assert (dB !! "Modality" = Some (VStr m')) as HmB.
  { unfold dB, m'. destruct pt, ct; by rewrite ?lookup_insert_eq. }
  assert (dB !! "SOPInstanceUID" = Some (VStr u)) as HuB.
  { unfold dB. destruct pt, ct; by rewrite ?lookup_insert_ne. }
  assert (dB !! "InstitutionAddress" = ds !! "InstitutionAddress") as HaB.
  { unfold dB. destruct pt, ct; by rewrite ?lookup_insert_ne. }
  assert (writable fs (joinpath output_path (m' +:+ u +:+ ".dcm")) = true) as Hw'.
  { apply Hw. unfold m'. destruct pt, ct; repeat constructor. }
  (* the Mismatched Address Cleanup *)
  assert (∃ tC dC, fix_incorrect_address (Some dB) = (tC, Ok (Some dC)) ∧
            dC !! "Modality" = Some (VStr m') ∧
            dC !! "SOPInstanceUID" = Some (VStr u)) as (tC & dC & HC & HmC & HuC).
  { unfold text_or_absent in Ha. rewrite <- HaB in Ha.
    destruct (dB !! "InstitutionAddress") as [[a|l t|]|] eqn:E; try done.
    - rewrite (fix_incorrect_address_text dB a E).
      destruct (str_in "Mississauga" a); do 2 eexists; (split; [reflexivity|]);
        by rewrite ?lookup_insert_ne.
    - rewrite (fix_incorrect_address_absent dB E). by do 2 eexists. }
  assert (files_saved tA = []) as HnA
    by (eapply (repair_methods_save_nothing fix_invalid_characters);
        [repeat constructor | exact HA]).
  assert (files_saved tB = []) as HnB
    by (eapply (repair_methods_save_nothing fix_incorrect_modality);
        [repeat constructor | exact HB]).
  assert (files_saved tC = []) as HnC
    by (eapply (repair_methods_save_nothing fix_incorrect_address);
        [repeat constructor | exact HC]).
  unfold repair_methods.
  rewrite (apply_repairs_step fs _ _ _ _ _ dA m u HA HmA HuA)
    by (apply Hw; repeat constructor).
  rewrite (apply_repairs_step fs _ _ _ _ _ dB m' u HB HmB HuB Hw').
  rewrite (apply_repairs_step fs _ _ _ _ _ dC m' u HC HmC HuC Hw').
  cbn [apply_repairs ret fst snd].
  eexists _, dA, dB, dC, m'. split; [reflexivity|].
  split; [done|]. split; [done|].
  match goal with
  | |- files_saved ?t = ?l ∧ _ => assert (files_saved t = l) as Hsaved
  end.
  { rewrite !files_saved_app, !files_saved_save, !files_saved_app,
      !files_saved_save, !files_saved_app, !files_saved_save.
    by rewrite HnA, HnB, HnC. }
  split; [exact Hsaved|].
  intros out. unfold write_all. rewrite Hsaved. cbn [foldl fst snd].
  by rewrite lookup_insert_eq.
Qed.

(** ** A dataset that a rule discards *)

(** X12.  In a list where one of the notebook's three rules follows a rule
    that returns [None], the loop over the rules raises [TypeError] as soon
    as the discarding rule has returned: the trace is that rule's trace,
    nothing is saved and the rules after it never run. *)
Theorem apply_repairs_rule_after_None (fs : filesystem) (method next : repair_method)
    (rest : list repair_method) (output_path : path) (d : option Dataset)
    (t : list event) :
  method d = (t, Ok None) →
  next ∈ repair_methods →
  apply_repairs fs (method :: next :: rest) output_path d = (t, Raise TypeError).
Proof.
  intros Hrun Hnext.
  rewrite (apply_repairs_after_None _ _ _ _ _ _ _ Hrun).
  rewrite (repair_methods_on_None next Hnext).
  cbn. by rewrite app_nil_r.
Qed.

(** X13.  A dataset with at least one element but without the Modality
    element, given to the notebook's own list: the Invalid Character Cleanup
    runs, the writer is then called on its result and raises [KeyError].
    The Modality Correction is never reached and its rejection line is not
    logged; the trace is that of the first rule. *)
Theorem apply_repairs_without_modality (fs : filesystem) (ds : Dataset)
    (output_path : path) :
  ds !! "Modality" = None → size ds ≠ 0 →
  text_or_absent ds "BodyPartExamined" →
  text_or_absent ds "OtherPatientIDs" →
  ∃ tr dA,
    fix_invalid_characters (Some ds) = (tr, Ok (Some dA)) ∧
    apply_repairs fs repair_methods output_path (Some ds) = (tr, Raise KeyError) ∧
    files_saved tr = [].
Proof.
  intros Hm Hsize Hb Ho.
  destruct (fix_invalid_characters_run ds Hb Ho) as (dA & HA & _).
  set (tA := Status <$> _) in HA.
  exists tA, dA. split; [done|].
  pose proof (fix_invalid_characters_frame ds dA _ "Modality" HA) as HmA.
  rewrite Hm in HmA. specialize (HmA ltac:(done) ltac:(done)).
  pose proof (fix_invalid_characters_dom ds dA _ HA) as Hdom.
  assert (size dA ≠ 0) as HsizeA.
  { intros Hz. apply map_size_empty_iff in Hz. subst dA.
    rewrite dom_empty_L in Hdom. symmetry in Hdom.
    apply dom_empty_iff_L in Hdom. subst ds. by rewrite map_size_empty in Hsize. }
  split.
  - unfold repair_methods. cbn [apply_repairs]. rewrite HA. unfold bind at 1.
    unfold truthy. destruct (size dA) as [|k]; [done|]. cbn [Nat.eqb negb].
    unfold save_dicom_dataset, build_dicom_file_name, data_element_value.
    rewrite HmA. cbn. by rewrite app_nil_r.
  - eapply (repair_methods_save_nothing fix_invalid_characters);
      [repeat constructor | exact HA].
Qed.

(** * Further properties of the Corpus Scanner *)

(** ** The listing *)

Lemma relative_to_spec (root p rel : path) :
  relative_to root p = Some rel ↔ p = root ++ rel.
Proof.
  revert p. induction root as [|r root IH]; intros p; cbn [relative_to].
  - split; [by intros [= ->] | by intros ->].
  - destruct p as [|c p]; [split; [done | by intros [=]]|].
    destruct (decide (r = c)) as [->|Hne].
    + rewrite IH. split; [by intros -> | by intros [= ->]].
    + split; [done | intros [= -> _]; done].
Qed.

Lemma elem_of_glob (fs : filesystem) (root p : path) (pat : scan_pattern) :
  p ∈ glob fs root pat ↔ p ∈ fs.*1 ∧ matches root pat p = true.
Proof. unfold glob. rewrite list_elem_of_In, filter_In, <- list_elem_of_In. tauto. Qed.


Lemma matches_TopDotted (root p : path) :
  matches root TopDotted p = true ↔ ∃ n, p = root ++ [n] ∧ str_in "." n = true.
Proof.
  unfold matches. destruct (relative_to root p) as [[|c [|c' rest]]|] eqn:E.
  - apply relative_to_spec in E. split; [done|]. intros (n & H & _).
    rewrite E in H. apply app_inv_head in H. done.
  - apply relative_to_spec in E. split; [eauto|].
    intros (n & H & Hdot). rewrite E in H. apply app_inv_head in H.
    by injection H as ->.
  - apply relative_to_spec in E. split; [done|]. intros (n & H & _).
    rewrite E in H. apply app_inv_head in H. done.
  - split; [done|]. intros (n & H & _).
    apply relative_to_spec in H. congruence.
Qed.

(** ** The files a scan opens *)

(** What one turn of the scanner opens, for a driving loop that opens no
    file itself. *)
Lemma check_file_reads_body (fs : filesystem) (body : Dataset → M unit) (p : path) :
  (∀ ds, files_read (body ds).1 = []) →
  files_read (check_file fs body p).1 = if is_file fs p then [p] else [].
Proof.
  intros Hbody. unfold check_file, is_file, load_header, dcmread.
  destruct (stat fs p) as [[[ds| |]| |]|]; try reflexivity.
  cbn. unfold truthy. destruct (negb (size ds =? 0)); [|done].
  specialize (Hbody ds). destruct (body ds) as [t r]. cbn in *.
  unfold files_read in *. cbn. by rewrite Hbody.
Qed.

Lemma scan_reads_files_body (fs : filesystem) (body : Dataset → M unit) (l : list path) :
  (∀ ds, files_read (body ds).1 = []) →
  let run := for_each l (check_file fs body) in
  ∃ rest, List.filter (is_file fs) l = files_read run.1 ++ rest ∧
          (run.2 = Ok tt → rest = []).
Proof.
  intros Hbody. induction l as [|p l [rest [IH1 IH2]]]; cbn zeta in *.
  - exists []. done.
  - rewrite for_each_trace, files_read_app, check_file_reads_body by done.
    cbn [List.filter for_each]. unfold bind.
    destruct (check_file fs body p) as [t [[]|e]] eqn:Hc; cbn [fst snd].
    + destruct (for_each l (check_file fs body)) as [t2 r2].
      cbn [fst snd] in *. exists rest. split; [|done].
      destruct (is_file fs p); cbn; by rewrite IH1.
    + exists (List.filter (is_file fs) l). split; [|done].
      destruct (is_file fs p); cbn; by rewrite ?app_nil_r.
Qed.

Lemma get_dicom_images_reads (fs : filesystem) (data_path : path)
    (include_subdirectories : bool) (body : Dataset → M unit) :
  (∀ ds, files_read (body ds).1 = []) →
  let pat := if include_subdirectories then AllBelow else TopDotted in
  let run := get_dicom_images fs data_path include_subdirectories body in
  (∀ p, p ∈ files_read run.1 →
     is_file fs p = true ∧ p ∈ fs.*1 ∧ matches data_path pat p = true) ∧
  (run.2 = Ok tt →
     ∀ p, is_file fs p = true → p ∈ fs.*1 → matches data_path pat p = true →
          p ∈ files_read run.1) ∧
  (NoDup (fs.*1) → NoDup (files_read run.1)).
Proof.
  intros Hbody. cbn zeta. unfold get_dicom_images.
  set (pat := if include_subdirectories then AllBelow else TopDotted).
  destruct (scan_reads_files_body fs body (glob fs data_path pat) Hbody)
    as (rest & Heq & Hok).
  split; [|split].
  - intros p Hp.
    assert (p ∈ List.filter (is_file fs) (glob fs data_path pat)) as Hin
      by (rewrite Heq; apply elem_of_app; by left).
    apply list_elem_of_In, filter_In in Hin as [Hin Hfile].
    apply list_elem_of_In, elem_of_glob in Hin. tauto.
  - intros Hrun p Hfile Hin Hmatch. rewrite (Hok Hrun), app_nil_r in Heq.
    rewrite <- Heq. apply list_elem_of_In, filter_In. split; [|done].
    apply list_elem_of_In, elem_of_glob. done.
  - intros Hnd.
    assert (NoDup (List.filter (is_file fs) (glob fs data_path pat))) as Hnd'.
    { apply NoDup_ListNoDup, List.NoDup_filter, List.NoDup_filter.
      by apply NoDup_ListNoDup. }
    rewrite Heq in Hnd'. by apply NoDup_app in Hnd' as [? _].
Qed.


(** X15.  A scan without recursion, driven by a loop that opens no file
    itself, only opens regular files that are direct children of the root
    and have a dot in their name; when it ends without an exception it has
    opened every one of them.  A direct child without a dot in its name, and
    any file of a subdirectory, is never opened. *)
Theorem get_dicom_images_flat_reads (fs : filesystem) (data_path : path)
    (body : Dataset → M unit) :
  (∀ ds, files_read (body ds).1 = []) →
  let run := get_dicom_images fs data_path false body in
  (∀ p, p ∈ files_read run.1 →
     is_file fs p = true ∧ p ∈ fs.*1 ∧
     ∃ n, p = data_path ++ [n] ∧ str_in "." n = true) ∧
  (run.2 = Ok tt →
     ∀ n, is_file fs (data_path ++ [n]) = true → data_path ++ [n] ∈ fs.*1 →
          str_in "." n = true → data_path ++ [n] ∈ files_read run.1).
Proof.
  intros Hbody.
  destruct (get_dicom_images_reads fs data_path false body Hbody) as (H1 & H2 & _).
  cbn zeta in *. split.
  - intros p Hp. destruct (H1 p Hp) as (? & ? & Hm).
    by apply matches_TopDotted in Hm.
  - intros Hrun n Hfile Hin Hdot. apply H2; try done.
    apply matches_TopDotted. eauto.
Qed.

(** ** A fatal error ends the scan *)

Lemma for_each_app_ok {A} (l1 l2 : list A) (body : A → M unit) :
  (for_each l1 body).2 = Ok tt →
  for_each (l1 ++ l2) body =
    ((for_each l1 body).1 ++ (for_each l2 body).1, (for_each l2 body).2).
Proof.
  induction l1 as [|x l1 IH]; cbn [for_each app].
  - intros _. by destruct (for_each l2 body).
  - unfold bind. destruct (body x) as [t [[]|e]]; [|done].
    destruct (for_each l1 body) as [t1 r1]. cbn [fst snd] in *.
    intros Hok. rewrite (IH Hok).
    destruct (for_each l2 body) as [t2 r2]. cbn. by rewrite app_assoc.
Qed.

Lemma check_file_unreadable (fs : filesystem) (body : Dataset → M unit) (p : path) :
  stat fs p = Some (EFile Unreadable) →
  check_file fs body p =
    ([Status ("Checking file " +:+ name p); Dcmread p], Raise PermissionError).
Proof.
  intros Hs. unfold check_file, is_file, load_header, dcmread. by rewrite Hs.
Qed.

(** X16.  A file that cannot be read ends the scan: the exception of the
    read leaves the generator after the "Checking file" line of that file,
    and the entries listed after it are not visited, whatever they are and
    whatever the driving loop does. *)
Theorem get_dicom_images_unreadable (fs : filesystem) (data_path : path)
    (include_subdirectories : bool) (body : Dataset → M unit)
    (before after : list path) (p : path) :
  glob fs data_path (if include_subdirectories then AllBelow else TopDotted) =
    before ++ p :: after →
  stat fs p = Some (EFile Unreadable) →
  (for_each before (check_file fs body)).2 = Ok tt →
  get_dicom_images fs data_path include_subdirectories body =
    ((for_each before (check_file fs body)).1 ++
       [Status ("Checking file " +:+ name p); Dcmread p],
     Raise PermissionError).
Proof.
  intros Hglob Hs Hok. unfold get_dicom_images. rewrite Hglob.
  rewrite (for_each_app_ok _ _ _ Hok).
  by rewrite (for_each_raise p after _ _ _ (check_file_unreadable fs body p Hs)).
Qed.

(** * Running the pipeline again *)

(** ** The file system after a run *)

Lemma stat_write_eq (fs : filesystem) (p : path) (ds : Dataset) :
  stat (write fs p ds) p = Some (EFile (Dicom ds)).
Proof.
  induction fs as [|[q e] fs IH]; cbn [write stat].
  - by rewrite decide_True.
  - destruct (decide (p = q)) as [->|Hne]; cbn [stat].
    + by rewrite decide_True.
    + by rewrite decide_False.
Qed.

Lemma stat_write_ne (fs : filesystem) (p q : path) (ds : Dataset) :
  q ≠ p → stat (write fs p ds) q = stat fs q.
Proof.
  intros Hne. induction fs as [|[r e] fs IH]; cbn [write stat].
  - by rewrite decide_False.
  - destruct (decide (p = r)) as [->|Hpr]; cbn [stat].
    + by rewrite !decide_False.
    + by rewrite IH.
Qed.

(** A write changes no answer of [writable]: [save_as] may judge every
    write of a run on the file system as the run found it. *)
Lemma writable_write (fs : filesystem) (p q : path) (ds : Dataset) :
  writable fs p = true → writable (write fs p ds) q = writable fs q.
Proof.
  intros Hp. unfold writable in *.
  destruct (decide (q = p)) as [->|Hne].
  - rewrite stat_write_eq. by rewrite Hp.
  - rewrite (stat_write_ne fs p q ds Hne).
    destruct (stat fs q) as [e|]; [done|].
    destruct (decide (parent q = p)) as [->|Hpar].
    + rewrite stat_write_eq.
      rewrite bool_decide_eq_false_2 by done.
      symmetry. apply bool_decide_eq_false_2. intros Hdir.
      by rewrite Hdir in Hp.
    + by rewrite (stat_write_ne fs p _ ds Hpar).
Qed.

(** The last dataset a list of writes stores at [p], if any. *)
Fixpoint last_write (ws : list (path * Dataset)) (p : path) : option Dataset :=
  match ws with
  | [] => None
  | (q, ds) :: ws' =>
      match last_write ws' p with
      | Some ds' => Some ds'
      | None => if decide (q = p) then Some ds else None
      end
  end.

Lemma last_write_None (ws : list (path * Dataset)) (p : path) :
  last_write ws p = None ↔ p ∉ ws.*1.
Proof.
  induction ws as [|[q ds] ws IH]; cbn [last_write fmap list_fmap fst].
  - split; [intros _ ?%elem_of_nil; done | done].
  - rewrite not_elem_of_cons. destruct (last_write ws p) as [d|].
    + split; [done|]. intros [_ Hn]. by apply IH in Hn.
    + destruct (decide (q = p)) as [->|Hne].
      * split; [done | by intros [? _]].
      * split; [|done]. intros _. split; [done | by apply IH].
Qed.

Lemma writes_foldl (ws : list (path * Dataset)) (fs : filesystem) :
  foldl (λ fs w, write fs w.1 w.2) fs ws =
    match ws with
    | [] => fs
    | w :: ws' => foldl (λ fs w, write fs w.1 w.2) (write fs w.1 w.2) ws'
    end.
Proof. by destruct ws. Qed.

Lemma stat_writes (ws : list (path * Dataset)) (fs : filesystem) (p : path) :
  stat (foldl (λ fs w, write fs w.1 w.2) fs ws) p =
    match last_write ws p with
    | Some ds => Some (EFile (Dicom ds))
    | None => stat fs p
    end.
Proof.
  revert fs. induction ws as [|[q ds] ws IH]; intros fs; [done|].
  cbn [foldl last_write fst snd]. rewrite IH.
  destruct (last_write ws p); [done|].
  destruct (decide (q = p)) as [->|Hne].
  - by rewrite stat_write_eq.
  - by rewrite stat_write_ne.
Qed.

Lemma writable_writes (fs : filesystem) (ws : list (path * Dataset)) :
  (∀ w, w ∈ ws → writable fs w.1 = true) →
  ∀ q, writable (foldl (λ fs w, write fs w.1 w.2) fs ws) q = writable fs q.
Proof.
  intros Hws.
  assert (∀ S, (∀ q, writable S q = writable fs q) →
            ∀ q, writable (foldl (λ fs w, write fs w.1 w.2) S ws) q = writable fs q)
    as Hgen; [|by apply Hgen].
  induction ws as [|[p ds] ws IH]; intros S HS q; [by apply HS|].
  cbn [foldl fst snd]. apply IH.
  - intros w Hw. apply Hws. by right.
  - intros q'. rewrite writable_write; [by apply HS|].
    rewrite HS. apply (Hws (p, ds)). by left.
Qed.

(** ** What the scanner sees of it *)

Lemma matches_below (root p : path) (pat : scan_pattern) :
  matches root pat p = true → ∃ rest, p = root ++ rest.
Proof.
  unfold matches. destruct (relative_to root p) as [rel|] eqn:E; [|done].
  intros _. apply relative_to_spec in E. by exists rel.
Qed.

Lemma glob_write (fs : filesystem) (root p : path) (pat : scan_pattern) (ds : Dataset) :
  (∀ rest, p ≠ root ++ rest) →
  glob (write fs p ds) root pat = glob fs root pat.
Proof.
  intros Hout. unfold glob.
  assert (matches root pat p = false) as Hp.
  { destruct (matches root pat p) eqn:E; [|done].
    apply matches_below in E as [rest ->]. by destruct (Hout rest). }
  induction fs as [|[q e] fs IH]; cbn [write fmap list_fmap fst List.filter].
  - by rewrite Hp.
  - destruct (decide (p = q)) as [->|Hne]; cbn [fmap list_fmap fst List.filter].
    + done.
    + by rewrite IH.
Qed.

Lemma glob_writes (fs : filesystem) (root : path) (pat : scan_pattern)
    (ws : list (path * Dataset)) :
  (∀ w rest, w ∈ ws → w.1 ≠ root ++ rest) →
  glob (foldl (λ fs w, write fs w.1 w.2) fs ws) root pat = glob fs root pat.
Proof.
  revert fs. induction ws as [|[p ds] ws IH]; intros fs Hout; [done|].
  cbn [foldl fst snd]. rewrite IH.
  - apply glob_write. intros rest. apply (Hout (p, ds)). by left.
  - intros w rest Hw. apply Hout. by right.
Qed.

(** ** Runs that differ in the file system only *)

Lemma bind_ext {A B} (m : M A) (k k' : A → M B) :
  (∀ a, k a = k' a) → bind m k = bind m k'.
Proof. intros H. unfold bind. destruct m as [t [a|e]]; [by rewrite H | done]. Qed.

Lemma for_each_ext {A} (l : list A) (f g : A → M unit) :
  (∀ x, x ∈ l → f x = g x) → for_each l f = for_each l g.
Proof.
  induction l as [|x l IH]; intros H; [done|]. cbn [for_each].
  rewrite (H x) by left. apply bind_ext. intros _. apply IH.
  intros y Hy. apply H. by right.
Qed.

Lemma check_file_ext (fs fs' : filesystem) (body body' : Dataset → M unit) (p : path) :
  stat fs' p = stat fs p → (∀ ds, body' ds = body ds) →
  check_file fs' body' p = check_file fs body p.
Proof.
  intros Hs Hb. unfold check_file, is_file, load_header, dcmread. rewrite Hs.
  destruct (match stat fs p with Some (EFile _) => true | _ => false end); [|done].
  apply bind_ext. intros _. apply bind_ext. intros [d|]; [|done].
  destruct (truthy (Some d)); [apply Hb | done].
Qed.

Lemma apply_repairs_ext (fs fs' : filesystem) (methods : list repair_method)
    (output_path : path) (dataset : option Dataset) :
  (∀ q, writable fs' q = writable fs q) →
  apply_repairs fs' methods output_path dataset =
  apply_repairs fs methods output_path dataset.
Proof.
  intros Hw. revert dataset.
  induction methods as [|method rest IH]; intros dataset; [done|].
  cbn [apply_repairs]. apply bind_ext. intros d.
  rewrite <- (bind_ext _ _ _ (λ _, IH d)). f_equal.
  destruct d as [ds|]; [|done]. destruct (truthy (Some ds)); [|done].
  unfold save_dicom_dataset, save_as. apply bind_ext. intros n. by rewrite Hw.
Qed.

(** ** Writing the same files again *)

Lemma write_write (fs : filesystem) (p : path) (a b : Dataset) :
  write (write fs p a) p b = write fs p b.
Proof.
  induction fs as [|[q e] fs IH]; cbn [write].
  - by rewrite decide_True.
  - destruct (decide (p = q)) as [->|Hne]; cbn [write].
    + by rewrite decide_True.
    + rewrite decide_False by done. by rewrite IH.
Qed.

Lemma write_commute (fs : filesystem) (p q : path) (a b : Dataset) :
  p ≠ q → is_Some (stat fs p) →
  write (write fs p a) q b = write (write fs q b) p a.
Proof.
  intros Hne. assert (q ≠ p) as Hne' by done.
  induction fs as [|[r e] fs IH]; cbn [write stat].
  - by intros [? ?].
  - destruct (decide (p = r)) as [->|Hpr].
    + intros _. rewrite (decide_False (P := q = r)) by done.
      cbn [write]. rewrite (decide_True (P := r = r)) by done.
      by rewrite (decide_False (P := q = r)) by done.
    + intros Hp. destruct (decide (q = r)) as [->|Hqr]; cbn [write].
      * rewrite (decide_True (P := r = r)) by done.
        by rewrite (decide_False (P := p = r)) by done.
      * rewrite (decide_False (P := q = r)), (decide_False (P := p = r)) by done.
        by rewrite IH.
Qed.

Lemma write_same (fs : filesystem) (p : path) (ds : Dataset) :
  stat fs p = Some (EFile (Dicom ds)) → write fs p ds = fs.
Proof.
  induction fs as [|[q e] fs IH]; cbn [write stat]; [done|].
  destruct (decide (p = q)) as [->|Hne].
  - by intros [= ->].
  - intros H. by rewrite IH.
Qed.

Lemma is_Some_stat_write (fs : filesystem) (p q : path) (ds : Dataset) :
  is_Some (stat fs q) → is_Some (stat (write fs p ds) q).
Proof.
  intros Hq. destruct (decide (q = p)) as [->|Hne].
  - rewrite stat_write_eq. eauto.
  - by rewrite stat_write_ne.
Qed.

(** A write is undone by a later write to the same file. *)
Lemma writes_overwrite (ws : list (path * Dataset)) (fs : filesystem) (p : path)
    (ds : Dataset) :
  is_Some (stat fs p) → p ∈ ws.*1 →
  foldl (λ fs w, write fs w.1 w.2) (write fs p ds) ws =
  foldl (λ fs w, write fs w.1 w.2) fs ws.
Proof.
  revert fs. induction ws as [|[q b] ws IH]; intros fs Hp Hin.
  - by apply elem_of_nil in Hin.
  - cbn [foldl fst snd]. destruct (decide (p = q)) as [->|Hne].
    + by rewrite write_write.
    + rewrite (write_commute fs p q ds b Hne Hp).
      apply IH; [by apply is_Some_stat_write|].
      cbn in Hin. apply elem_of_cons in Hin as [?|?]; done.
Qed.

(** Writes that find in each file what the last of them stores there leave
    the file system as it is. *)
Lemma writes_same (ws : list (path * Dataset)) (fs : filesystem) :
  (∀ p ds, last_write ws p = Some ds → stat fs p = Some (EFile (Dicom ds))) →
  foldl (λ fs w, write fs w.1 w.2) fs ws = fs.
Proof.
  induction ws as [|[p ds] ws IH]; intros Hlast; [done|].
  cbn [foldl fst snd].
  destruct (last_write ws p) as [d|] eqn:Hp.
  - rewrite writes_overwrite.
    + apply IH. intros q dq Hq. apply Hlast. cbn [last_write]. by rewrite Hq.
    + rewrite (Hlast p d); [eauto|]. cbn [last_write]. by rewrite Hp.
    + apply dec_stable. intros Hn. apply last_write_None in Hn. congruence.
  - rewrite write_same.
    + apply IH. intros q dq Hq. apply Hlast. cbn [last_write]. by rewrite Hq.
    + apply Hlast. cbn [last_write]. rewrite Hp. by rewrite decide_True.
Qed.

Lemma disk_after_twice (fs : filesystem) (tr : list event) :
  disk_after (disk_after fs tr) tr = disk_after fs tr.
Proof.
  unfold disk_after. apply writes_same. intros p ds Hp.
  by rewrite stat_writes, Hp.
Qed.

(** ** The second run *)

(** An input directory that is its own output directory. *)
Definition nm_pet_ct : Dataset :=
  <["Modality" := VStr "NM"]>
    (<["KVP" := VOther]>
       (<["RadiopharmaceuticalInformationSequence" := VOther]>
          (<["SOPInstanceUID" := VStr "1.2.840.11"]> ∅))).

Definition shared_directory : filesystem :=
  [ (["d"], EDir); (["d"; "img.dcm"], EFile (Dicom nm_pet_ct)) ].

(** C8, as stated, fails when the output directory lies in the scanned
    directory.  Here they are the same directory.  The first run writes the
    header as read, under the name built from "NM", and the corrected header
    under the name built from "PT".  The second run scans these two files
    too: the header now labelled "PT" still carries the CT indicator, so the
    Modality Correction relabels it "CT" and the run writes a file under a
    third name, which the first run did not write. *)
Lemma perform_repairs_twice_in_place :
  let first := perform_repairs shared_directory ["d"] ["d"] repair_methods in
  let fs1 := disk_after shared_directory first.1 in
  let second := perform_repairs fs1 ["d"] ["d"] repair_methods in
  let fs2 := disk_after fs1 second.1 in
  first.2 = Ok tt ∧ second.2 = Ok tt ∧
  fs1.*1 = [ ["d"]; ["d"; "img.dcm"];
             ["d"; "NM1.2.840.11.dcm"]; ["d"; "PT1.2.840.11.dcm"] ] ∧
  fs2.*1 = fs1.*1 ++ [ ["d"; "CT1.2.840.11.dcm"] ] ∧
  stat fs1 ["d"; "CT1.2.840.11.dcm"] = None ∧
  stat fs2 ["d"; "CT1.2.840.11.dcm"] =
    Some (EFile (Dicom (<["Modality" := VStr "CT"]> nm_pet_ct))).
Proof. cbv zeta. compute_done. Qed.

(** C8, amended.  With repair functions that only emit status lines, as the
    three of the notebook do, and provided no file the first run writes lies
    in the input directory or below it, a second run over the file system as
    the first one left it does exactly what the first did: it logs the same
    lines, opens the same files, writes the same datasets under the same
    names in the same order and ends the same way.  Every file it writes is
    there already, with the content the first run gave it last: the second
    run leaves every entry of the file system as it found it and adds
    none. *)
Theorem perform_repairs_twice (fs : filesystem) (input_path output_path : path)
    (methods : list repair_method) :
  (∀ method, method ∈ methods → ∀ d, status_only (method d).1) →
  let first := perform_repairs fs input_path output_path methods in
  let fs1 := disk_after fs first.1 in
  (∀ p ds rest, (p, ds) ∈ files_saved first.1 → p ≠ input_path ++ rest) →
  let second := perform_repairs fs1 input_path output_path methods in
  second = first ∧ disk_after fs1 second.1 = fs1.
Proof.
  intros Hm first fs1 Hout second.
  assert (second = first) as Heq.
  { unfold second, first, perform_repairs, get_dicom_images.
    assert (∀ q, writable fs1 q = writable fs q) as Hw.
    { apply writable_writes. intros [p ds] Hin.
      pose proof (perform_repairs_Forall_saves_under fs input_path output_path
                    methods Hm) as Hall.
      by destruct (Forall_files_saved _ _ p ds Hall Hin) as (n & _ & _ & Hp). }
    unfold fs1 at 1, disk_after. rewrite glob_writes
      by (intros [p ds] rest Hin; by apply (Hout p ds rest)).
    apply for_each_ext. intros q Hq. apply check_file_ext.
    - unfold fs1, disk_after. rewrite stat_writes.
      destruct (last_write (files_saved first.1) q) as [d|] eqn:Hlast; [|done].
      assert (q ∈ (files_saved first.1).*1) as Hin.
      { apply dec_stable. intros Hn. apply last_write_None in Hn. congruence. }
      apply list_elem_of_fmap in Hin as ([p ds] & -> & Hin).
      apply elem_of_glob in Hq as [_ Hq].
      apply matches_below in Hq as [rest Hq].
      by destruct (Hout p ds rest Hin).
    - intros ds. by rewrite (apply_repairs_ext fs fs1 methods output_path (Some ds) Hw). }
  split; [exact Heq|]. rewrite Heq. apply disk_after_twice.
Qed.

(** * The header review notebook *)

(** ** Its functions *)

(** A [for] loop whose body updates a local variable of the caller. *)
Fixpoint for_each_acc {A S} (l : list A) (body : S → A → M S) (s : S) : M S :=
  match l with
  | [] => ret s
  | x :: l' => let* s' := body s x in for_each_acc l' body s'
  end.

(** The loop body of [get_dicom_images], for a driving loop that updates a
    variable [s]. *)
Definition check_file_acc {S} (fs : filesystem) (body : S → Dataset → M S)
    (s : S) (dicom_file : path) : M S :=
  if is_file fs dicom_file then
    status_output ("Checking file " +:+ name dicom_file) ;;;
    let* dataset := load_header fs dicom_file in
    match dataset with
    | Some ds => if truthy dataset then body s ds else ret s
    | None => ret s
    end
  else ret s.

Definition get_dicom_images_acc {S} (fs : filesystem) (data_path : path)
    (include_subdirectories : bool) (body : S → Dataset → M S) (s : S) : M S :=
  let pat := if include_subdirectories then AllBelow else TopDotted in
  for_each_acc (glob fs data_path pat) (check_file_acc fs body) s.

(** [str(dataset.get(tag))]: [get] gives [None] for an element the dataset
    does not have, and [str(None)] is the text "None".  [other] is the text
    [str] gives for a value without text. *)
Definition str_of_get (other : string) (ds : Dataset) (tag : string) : string :=
  match ds !! tag with
  | None => "None"
  | Some (VStr s) => s
  | Some (VMulti _ text) => text
  | Some VOther => other
  end.

Definition image_id_tags : list string :=
  ["StudyID"; "SeriesNumber"; "StudyDescription"; "SeriesDescription";
   "Modality"; "InstanceNumber"; "SliceLocation"].

(** The inner loop of [scan_headers]:
    [header_data = {}; for tag in all_tags: header_data[tag] = str(dataset.get(tag))] *)
Definition header_data (other : string) (all_tags : list string) (ds : Dataset)
    : gmap string string :=
  foldl (λ row tag, <[tag := str_of_get other ds tag]> row) ∅ all_tags.

(** [scan_headers(input_path, desired_tags, status_output)]: the rows handed
    to the data frame, in order. *)
Definition scan_headers (other : string) (fs : filesystem) (input_path : path)
    (desired_tags : list string) : M (list (gmap string string)) :=
  let all_tags := image_id_tags ++ desired_tags in
  get_dicom_images_acc fs input_path true
    (λ all_header_data dataset,
       ret (all_header_data ++ [header_data other all_tags dataset]))
    [].

(** ** Properties *)

(** The two embeddings of the generator agree. *)
Lemma for_each_acc_unit {A} (l : list A) (body : A → M unit) :
  for_each_acc l (λ _ x, body x) tt = for_each l body.
Proof.
  induction l as [|x l IH]; [done|]. cbn [for_each_acc for_each].
  unfold bind. destruct (body x) as [t [[]|e]]; [|done]. by rewrite IH.
Qed.

Lemma get_dicom_images_acc_unit (fs : filesystem) (data_path : path)
    (include_subdirectories : bool) (body : Dataset → M unit) :
  get_dicom_images_acc fs data_path include_subdirectories (λ _ ds, body ds) tt =
  get_dicom_images fs data_path include_subdirectories body.
Proof.
  unfold get_dicom_images_acc, get_dicom_images.
  rewrite <- for_each_acc_unit.
  generalize (glob fs data_path (if include_subdirectories then AllBelow else TopDotted)).
  intros l. induction l as [|x l IH]; [done|]. cbn [for_each_acc].
  replace (check_file_acc fs (λ _ ds, body ds) tt x) with (check_file fs body x).
  - unfold bind. destruct (check_file fs body x) as [t [[]|e]]; [|done].
    by rewrite IH.
  - unfold check_file, check_file_acc. destruct (is_file fs x); [|done].
    f_equal.
Qed.

(** The dataset a listed path yields, if any. *)
Definition yielded (fs : filesystem) (p : path) : option Dataset :=
  match stat fs p with
  | Some (EFile (Dicom ds)) => if size ds =? 0 then None else Some ds
  | _ => None
  end.

Lemma check_file_acc_collect {R} (fs : filesystem) (row : Dataset → R)
    (acc : list R) (p : path) (tr : list event) (acc' : list R) :
  check_file_acc fs (λ a ds, ret (a ++ [row ds])) acc p = (tr, Ok acc') →
  acc' = acc ++ (row <$> option_list (yielded fs p)).
Proof.
  unfold check_file_acc, is_file, yielded, load_header, dcmread.
  destruct (stat fs p) as [[[ds| |]| |]|]; cbn; try (intros [= _ <-]; by rewrite app_nil_r);
    try done.
  unfold truthy. destruct (size ds =? 0); cbn; intros [= _ <-]; [|done].
  by rewrite app_nil_r.
Qed.

Lemma for_each_acc_collect {R} (fs : filesystem) (row : Dataset → R)
    (l : list path) (acc : list R) (tr : list event) (acc' : list R) :
  for_each_acc l (check_file_acc fs (λ a ds, ret (a ++ [row ds]))) acc = (tr, Ok acc') →
  acc' = acc ++ (row <$> omap (yielded fs) l).
Proof.
  revert acc tr. induction l as [|p l IH]; intros acc tr; cbn [for_each_acc].
  - intros [= _ <-]. by rewrite app_nil_r.
  - unfold bind.
    destruct (check_file_acc fs _ acc p) as [t [a1|e]] eqn:Hc; [|done].
    apply check_file_acc_collect in Hc. subst a1.
    destruct (for_each_acc l _ _) as [t2 [a2|e]] eqn:Hl; [|done].
    intros [= _ <-]. apply IH in Hl. subst a2.
    cbn [omap list_omap]. rewrite <- app_assoc. f_equal.
    destruct (yielded fs p); by rewrite ?fmap_app.
Qed.

(** X17.  When [scan_headers] returns, its table has one row per listed file
    that holds a dataset with at least one element, in listing order; files
    that are not DICOM files and files holding a dataset without elements
    give no row. *)
Theorem scan_headers_rows (other : string) (fs : filesystem) (input_path : path)
    (desired_tags : list string) (tr : list event) (rows : list (gmap string string)) :
  scan_headers other fs input_path desired_tags = (tr, Ok rows) →
  rows = header_data other (image_id_tags ++ desired_tags) <$>
           omap (yielded fs) (glob fs input_path AllBelow).
Proof.
  unfold scan_headers, get_dicom_images_acc. intros Hrun.
  by apply for_each_acc_collect in Hrun.
Qed.

Lemma header_data_lookup (other : string) (tags : list string) (ds : Dataset)
    (init : gmap string string) (tag : string) :
  foldl (λ row t, <[t := str_of_get other ds t]> row) init tags !! tag =
    if bool_decide (tag ∈ tags) then Some (str_of_get other ds tag) else init !! tag.
Proof.
  revert init. induction tags as [|t tags IH]; intros init; cbn [foldl]; [done|].
  rewrite IH. destruct (decide (tag ∈ tags)) as [Hin|Hnin].
  - rewrite !bool_decide_eq_true_2; [done | by right | done].
  - rewrite (bool_decide_eq_false_2 (tag ∈ tags)) by done.
    destruct (decide (t = tag)) as [->|Hne].
    + rewrite bool_decide_eq_true_2 by left. by rewrite lookup_insert_eq.
    + rewrite bool_decide_eq_false_2, lookup_insert_ne; [done | done |].
      intros [->|?]%elem_of_cons; done.
Qed.

(** X18.  A row of the header table has exactly the requested tags as its
    columns, whether or not the dataset has the elements: the cell of an
    element the dataset lacks is the text "None", and the cell of an element
    holding a string is that string. *)
Theorem header_data_cells (other : string) (tags : list string) (ds : Dataset)
    (tag : string) :
  (tag ∈ tags → header_data other tags ds !! tag = Some (str_of_get other ds tag)) ∧
  (tag ∉ tags → header_data other tags ds !! tag = None) ∧
  (tag ∈ tags → ds !! tag = None → header_data other tags ds !! tag = Some "None") ∧
  (∀ s, tag ∈ tags → ds !! tag = Some (VStr s) →
     header_data other tags ds !! tag = Some s).
Proof.
  unfold header_data.
  repeat split; intros; rewrite header_data_lookup.
  - by rewrite bool_decide_eq_true_2.
  - by rewrite bool_decide_eq_false_2.
  - rewrite bool_decide_eq_true_2 by done. unfold str_of_get. by rewrite H0.
  - rewrite bool_decide_eq_true_2 by done. unfold str_of_get. by rewrite H0.
Qed.

(** * The statistics cell of the repair notebook *)

(** ** Its functions *)

Definition CR : ascii := ascii_of_nat 13.
Definition LF : ascii := ascii_of_nat 10.
Definition space : ascii := ascii_of_nat 32.

(** [s.replace(old, new)] for one-character [old] and [new]. *)
Fixpoint replace_char (old new : ascii) (s : string) : string :=
  match s with
  | EmptyString => EmptyString
  | String c s' =>
      String (if decide (c = old) then new else c) (replace_char old new s')
  end.

(** [drop_name(text)] *)
Definition drop_name (text : string) : string :=
  if startswith text "Checking file" then "Checking file"
  else
    let new_text := replace_char CR space text in
    let new_text := replace_char LF space new_text in
    new_text.

(** [stats_log = [drop_name(line) for line in repair_log]] *)
Definition stats_log (log : list string) : list string := drop_name <$> log.

(** [Counter(stats_log)[key]]: the number of occurrences of [key]. *)
Definition Counter (l : list string) (key : string) : nat :=
  length (List.filter (λ x, bool_decide (x = key)) l).

(** ** Properties *)

Lemma replace_char_chars (old new : ascii) (s : string) (c : ascii) :
  old ≠ new → c ∈ list_ascii_of_string (replace_char old new s) → c ≠ old.
Proof.
  intros Hne. induction s as [|d s IH]; cbn [replace_char list_ascii_of_string].
  - by intros ?%elem_of_nil.
  - intros [->|Hin]%elem_of_cons; [|by apply IH].
    by destruct (decide (d = old)).
Qed.

Lemma replace_char_keeps (old new : ascii) (s : string) (c : ascii) :
  c ≠ new → c ∈ list_ascii_of_string (replace_char old new s) →
  c ∈ list_ascii_of_string s.
Proof.
  intros Hne. induction s as [|d s IH]; cbn [replace_char list_ascii_of_string];
    [done|].
  intros [->|Hin]%elem_of_cons.
  - destruct (decide (d = old)); [done | by left].
  - right. by apply IH.
Qed.

Lemma replace_char_length (old new : ascii) (s : string) :
  String.length (replace_char old new s) = String.length s.
Proof. induction s as [|d s IH]; cbn; [done | by rewrite IH]. Qed.

(** X19.  No line of the statistics holds a carriage return or a line feed,
    whatever the log line was; and a line that does not start with
    "Checking file" keeps its length. *)
Theorem drop_name_no_line_break (text : string) :
  (∀ c, c ∈ list_ascii_of_string (drop_name text) → c ≠ CR ∧ c ≠ LF) ∧
  (startswith text "Checking file" = false →
     String.length (drop_name text) = String.length text).
Proof.
  unfold drop_name. destruct (startswith text "Checking file").
  - split; [|done]. intros c Hc. vm_compute in Hc.
    repeat (apply elem_of_cons in Hc as [->|Hc]; [by vm_compute|]).
    by apply elem_of_nil in Hc.
  - split; [|by rewrite !replace_char_length].
    intros c Hc. split.
    + intros ->. apply replace_char_keeps in Hc; [|by vm_compute].
      by apply replace_char_chars in Hc; [|by vm_compute].
    + by apply replace_char_chars in Hc; [|by vm_compute].
Qed.

(** The lines the three rules emit start with the letter I or M. *)
Definition rule_line (ev : event) : Prop :=
  ∃ c m, ev = Status (String c m) ∧ (c = "I"%char ∨ c = "M"%char).

Lemma rule_line_bind {A B} (m : M A) (k : A → M B) :
  Forall rule_line m.1 → (∀ a, Forall rule_line (k a).1) →
  Forall rule_line (bind m k).1.
Proof. apply bind_Forall. Qed.

Lemma in_dataset_rule_line (k : string) (dataset : option Dataset) :
  Forall rule_line (in_dataset k dataset).1.
Proof. destruct dataset; constructor. Qed.

Lemma data_element_value_rule_line (ds : Dataset) (k : string) :
  Forall rule_line (data_element_value ds k).1.
Proof. unfold data_element_value. destruct (ds !! k); constructor. Qed.

Lemma status_rule_line (c : ascii) (m : string) :
  c = "I"%char ∨ c = "M"%char → Forall rule_line (status_output (String c m)).1.
Proof. intros Hc. repeat constructor. by exists c, m. Qed.

Ltac rule_line_step :=
  first
    [ apply Forall_nil_2
    | apply in_dataset_rule_line
    | apply data_element_value_rule_line
    | apply (status_rule_line "I"); by left
    | apply (status_rule_line "M"); by right
    | apply rule_line_bind; [|intros ?]
    | match goal with
      | |- Forall rule_line (fst (match ?x with _ => _ end)) => destruct x
      | |- Forall rule_line (fst (if ?b then _ else _)) => destruct b
      end ].

Lemma fix_invalid_elements_rule_line (ks : list string) (dataset : option Dataset) :
  Forall rule_line (fix_invalid_elements ks dataset).1.
Proof.
  revert dataset. induction ks as [|k ks IH]; intros dataset; cbn [fix_invalid_elements].
  - constructor.
  - apply rule_line_bind; [|apply IH].
    unfold fix_invalid_element. repeat rule_line_step.
Qed.

Lemma repair_methods_rule_line (method : repair_method) (dataset : option Dataset) :
  method ∈ repair_methods → Forall rule_line (method dataset).1.
Proof.
  unfold repair_methods. intros Hin.
  repeat (apply elem_of_cons in Hin as [->|Hin]).
  - apply fix_invalid_elements_rule_line.
  - unfold fix_incorrect_modality. repeat rule_line_step.
  - unfold fix_incorrect_address. repeat rule_line_step.
  - by apply elem_of_nil in Hin.
Qed.

(** The number of "Checking file" entries the statistics count in a trace. *)
Definition checks (tr : list event) : nat :=
  Counter (stats_log (repair_log tr)) "Checking file".

Lemma checks_app (t1 t2 : list event) : checks (t1 ++ t2) = checks t1 + checks t2.
Proof.
  unfold checks, Counter, stats_log, repair_log.
  by rewrite omap_app, fmap_app, List.filter_app, length_app.
Qed.

Lemma checks_cons (ev : event) (tr : list event) :
  checks (ev :: tr) = checks [ev] + checks tr.
Proof. apply (checks_app [ev] tr). Qed.

Lemma checks_check_line (n : string) :
  checks [Status ("Checking file " +:+ n)] = 1.
Proof. reflexivity. Qed.

Lemma checks_not_status (ev : event) :
  (∀ m, ev ≠ Status m) → checks [ev] = 0.
Proof. intros Hev. destruct ev; [by destruct (Hev message) | done | done]. Qed.

Lemma checks_line (m : string) :
  drop_name m ≠ "Checking file" → checks [Status m] = 0.
Proof.
  intros Hm. unfold checks, Counter, stats_log, repair_log. cbn.
  by rewrite bool_decide_eq_false_2.
Qed.

Lemma rule_line_checks (ev : event) : rule_line ev → checks [ev] = 0.
Proof.
  intros (c & m & -> & Hc). apply checks_line. unfold drop_name.
  destruct Hc as [-> | ->]; cbn [startswith]; by case_decide.
Qed.

(** A trace of writes and of lines of the rules: nothing the statistics
    count as a check, and no file opened. *)
Definition neutral (ev : event) : Prop :=
  rule_line ev ∨ ∃ p ds, ev = SaveAs p ds.

Lemma neutral_trace (tr : list event) :
  Forall neutral tr → checks tr = 0 ∧ files_read tr = [].
Proof.
  induction 1 as [|ev tr Hev _ [IH1 IH2]]; [done|].
  rewrite checks_cons, IH1. unfold files_read in *. cbn [omap list_omap].
  rewrite IH2. destruct Hev as [Hev | (p & ds & ->)].
  - rewrite (rule_line_checks ev Hev). by destruct Hev as (c & m & -> & _).
  - done.
Qed.

Lemma apply_repairs_neutral (fs : filesystem) (methods : list repair_method)
    (output_path : path) (dataset : option Dataset) :
  (∀ method, method ∈ methods → method ∈ repair_methods) →
  Forall neutral (apply_repairs fs methods output_path dataset).1.
Proof.
  revert dataset. induction methods as [|method rest IH]; intros dataset Hm;
    cbn [apply_repairs]; [constructor|].
  apply bind_Forall.
  - eapply Forall_impl; [apply repair_methods_rule_line, Hm; by left|].
    intros ev Hev. by left.
  - intros d. apply bind_Forall.
    + destruct d as [ds|]; [|constructor].
      destruct (truthy (Some ds)); [|constructor].
      destruct (save_dicom_dataset_cases fs ds output_path)
        as [(e & -> & _) | (n & -> & _)]; [constructor|].
      constructor; [right; eauto | constructor].
    + intros _. apply IH. intros m Hin. apply Hm. by right.
Qed.

(** The skip line of a file starts with "Checking file" only if the name of
    the file does. *)
Lemma skip_line_not_check (n : string) :
  startswith n "Checking file" = false →
  startswith (n +:+ " did not contain valid DICOM data.  Skipped.")
    "Checking file" = false.
Proof.
  do 13 (destruct n as [|? n];
         [intros _; by vm_compute
         | rewrite append_String; cbn [startswith]; case_decide; [|done]]).
  done.
Qed.

Lemma skip_line_checks (n : string) :
  startswith n "Checking file" = false →
  checks [Status (n +:+ " did not contain valid DICOM data.  Skipped.")] = 0.
Proof.
  intros Hn. apply checks_line. unfold drop_name.
  rewrite (skip_line_not_check n Hn). cbn zeta. intros Heq.
  apply (f_equal String.length) in Heq.
  rewrite !replace_char_length in Heq.
  rewrite <- length_list_of_string, list_of_append, length_app in Heq.
  rewrite !length_list_of_string in Heq. cbn in Heq. lia.
Qed.

Lemma check_file_empty (fs : filesystem) (body : Dataset → M unit) (p : path)
    (ds : Dataset) :
  stat fs p = Some (EFile (Dicom ds)) → size ds = 0 →
  check_file fs body p = ([Status ("Checking file " +:+ name p); Dcmread p], Ok tt).
Proof.
  intros Hs Hsize. unfold check_file, is_file. rewrite Hs.
  rewrite bind_status, (load_header_dicom fs p ds Hs).
  unfold bind, truthy. rewrite Hsize. reflexivity.
Qed.

Lemma check_file_balanced (fs : filesystem) (body : Dataset → M unit) (p : path) :
  (∀ ds, Forall neutral (body ds).1) →
  startswith (name p) "Checking file" = false →
  checks (check_file fs body p).1 = length (files_read (check_file fs body p).1).
Proof.
  intros Hbody Hname.
  destruct (stat fs p) as [[[ds| |]| |]|] eqn:Hs.
  - destruct (decide (size ds = 0)) as [Hz|Hnz].
    + by rewrite (check_file_empty fs body p ds Hs Hz).
    + rewrite (check_file_yields fs body p ds Hs Hnz).
      destruct (neutral_trace _ (Hbody ds)) as [Hc Hr].
      unfold prefixed. cbn [fst snd].
      rewrite checks_cons, checks_check_line, checks_cons, Hc.
      unfold files_read in *. cbn [omap list_omap]. by rewrite Hr.
  - rewrite (check_file_not_dicom fs body p Hs). cbn [fst].
    rewrite checks_cons, checks_check_line, checks_cons.
    by rewrite (skip_line_checks _ Hname).
  - by rewrite (check_file_unreadable fs body p Hs).
  - unfold check_file, is_file. by rewrite Hs.
  - unfold check_file, is_file. by rewrite Hs.
  - unfold check_file, is_file. by rewrite Hs.
Qed.

(** X20.  After a run of the pipeline with rules of the notebook's list, the
    statistics cell counts under "Checking file" exactly the files the run
    has opened, however the run ended, provided no listed name starts with
    "Checking file" itself (the skip line of such a file would be counted
    too). *)
Theorem perform_repairs_checks_counted (fs : filesystem)
    (input_path output_path : path) (methods : list repair_method) :
  (∀ method, method ∈ methods → method ∈ repair_methods) →
  (∀ p, p ∈ fs.*1 → startswith (name p) "Checking file" = false) →
  let tr := (perform_repairs fs input_path output_path methods).1 in
  Counter (stats_log (repair_log tr)) "Checking file" = length (files_read tr).
Proof.
  intros Hm Hnames. cbn zeta. unfold perform_repairs, get_dicom_images.
  fold (checks (for_each (glob fs input_path AllBelow)
    (check_file fs (λ dataset,
       apply_repairs fs methods output_path (Some dataset);;; ret ()))).1).
  assert (∀ p, p ∈ glob fs input_path AllBelow → p ∈ fs.*1) as Hsub
    by (intros p Hp; by apply elem_of_glob in Hp as [? _]).
  induction (glob fs input_path AllBelow) as [|p l IH]; [done|].
  rewrite for_each_trace, checks_app, files_read_app, length_app.
  rewrite check_file_balanced.
  - f_equal. destruct (check_file fs _ p).2; [|done].
    apply IH. intros q Hq. apply Hsub. by right.
  - intros ds. apply bind_Forall; [by apply apply_repairs_neutral | constructor].
  - apply Hnames, Hsub. by left.
Qed.

(** * The notebook of the graphical front end
    [Notebooks/DICOM Repair GUI.ipynb] *)

Module RepairGui.

(** ** The progress bar and the status function *)

(** The attribute [value] that the class [ProgressBar] adds to the widget,
    an integer or [None], and the maximum of the widget. *)
Record ProgressBar := {
  value : option Z;
  max_value : Z
}.

(** How a call of [update] gives the count: not at all, as the first
    positional argument, or with the keyword [current_count].  The count
    given may be [None]. *)
Inductive count_arg :=
  | NoCount
  | ByPosition (c : option Z)
  | ByKeyword (c : option Z).

(** [ProgressBar.update], called with positional and keyword arguments; [max]
    is the keyword [max] handed on to the widget.  The attribute takes the
    count when one is given and is not [None]. *)
Definition update (count : count_arg) (max : option Z) (bar : ProgressBar)
    : ProgressBar :=
  let current_count :=
    match count with
    | ByKeyword c => c
    | ByPosition c => c
    | NoCount => None
    end in
  {| value := match current_count with Some c => Some c | None => value bar end;
     max_value := default (max_value bar) max |}.

(** [not x] for an integer or [None]. *)
Definition falsy (x : option Z) : bool :=
  match x with
  | None => true
  | Some z => bool_decide (z = 0%Z)
  end.

(** [ProgressBar.increment(step_size)] *)
Definition increment (step_size : Z) (bar : ProgressBar) : ProgressBar :=
  let current_level := value bar in
  let current_level := if falsy current_level then 0%Z else default 0%Z current_level in
  let new_level := (current_level + step_size)%Z in
  update (ByPosition (Some new_level)) None bar.

(** What [status_output] acts on: the progress bar, the lines printed in the
    status widget and the repair log. *)
Record window := {
  progress : ProgressBar;
  status_lines : list string;
  repair_log : list string
}.

(** [status_output(main_window, status_element, progress_element, repair_log,
    message, value, max_count)] *)
Definition status_output (message : string) (value : option Z) (max_count : option Z)
    (w : window) : window :=
  let bar := progress w in
  let bar := if negb (falsy max_count)
             then update (ByPosition (Some 0%Z)) max_count bar else bar in
  let bar := if negb (falsy value)
             then update (ByPosition value) None bar else bar in
  if negb (bool_decide (message = EmptyString)) then
    {| progress := if str_in "Checking file" message then increment 1 bar else bar;
       status_lines := status_lines w ++ [message];
       repair_log := repair_log w ++ [message] |}
  else
    {| progress := bar; status_lines := status_lines w; repair_log := repair_log w |}.

(** ** The selection of the paths *)

Inductive browser := FileBrowse | FileSaveAs | FilesBrowse | FolderBrowse.

(** The text the input field starts with: a file name or a directory. *)
Inductive initial := FileName (n : string) | Folder (p : path).

Record selector := {
  browse : browser;
  initial_folder : path;
  initial_text : initial
}.

(** [file_selector(selection, file_k, frame_title, starting_path, file_type)]:
    the browse button and the initial text of the frame it builds, or [None]
    when it raises [ValueError].  [cwd] is [Path.cwd()]. *)
Definition file_selector (fs : filesystem) (cwd : path) (selection : string)
    (starting_path : path) : option selector :=
  let '(initial_dir, initial_file) :=
    match stat fs starting_path with
    | Some (EFile _) => (parent starting_path, name starting_path)
    | Some EDir | Some ELocked => (starting_path, EmptyString)
    | None =>
        match stat fs (parent starting_path) with
        | None => (cwd, EmptyString)
        | Some _ => (parent starting_path, EmptyString)
        end
    end in
  if str_in "read file" selection then
    Some {| browse := FileBrowse; initial_folder := initial_dir;
            initial_text := FileName initial_file |}
  else if str_in "save file" selection then
    Some {| browse := FileSaveAs; initial_folder := initial_dir;
            initial_text := FileName initial_file |}
  else if str_in "read files" selection then
    Some {| browse := FilesBrowse; initial_folder := initial_dir;
            initial_text := FileName initial_file |}
  else if str_in "dir" selection then
    Some {| browse := FolderBrowse; initial_folder := initial_dir;
            initial_text := Folder initial_dir |}
  else None.

(** A value of the dictionary [window.read()] returns. *)
Inductive field := Text (s : string) | Flag (b : bool).

(** How [get_file_paths] ends: it returns the values (and has closed the
    window or not), raises [TypeError] on assigning into [None], or is still
    waiting for an event. *)
Inductive ending :=
  | Returns (values : gmap string field) (closed : bool)
  | RaisesTypeError (closed : bool)
  | Waiting.

Definition finish (process_repairs closed : bool) (values : option (gmap string field))
    : ending :=
  match values with
  | Some v => Returns (<["process_repairs" := Flag process_repairs]> v) closed
  | None => RaisesTypeError closed
  end.

(** [get_file_paths(window)], on the successive results of [window.read()]:
    an event ([None] is [sg.WIN_CLOSED]) and the values read with it. *)
Fixpoint get_file_paths (reads : list (option string * option (gmap string field)))
    : ending :=
  match reads with
  | [] => Waiting
  | (event, values) :: rest =>
      match event with
      | None => finish false true values
      | Some key =>
          if bool_decide (key = "Quit") then finish false true values
          else if bool_decide (key = "start_repair") then finish true false values
          else get_file_paths rest
      end
  end.

(** ** Properties *)

Lemma window_eta (w : window) :
  {| progress := progress w; status_lines := status_lines w;
     repair_log := repair_log w |} = w.
Proof. by destruct w. Qed.

(** X21.  [status_output] takes a zero like a missing argument: a [value]
    of 0 does not move the bar, a [max_count] of 0 neither resets the bar nor
    changes its maximum, and a call with no message, no value and no maximum
    changes nothing.  A non-zero [max_count] does put the bar back to 0. *)
Theorem status_output_zero (message : string) (v max_count : option Z) (w : window) :
  status_output message (Some 0%Z) max_count w = status_output message None max_count w ∧
  status_output message v (Some 0%Z) w = status_output message v None w ∧
  status_output EmptyString None None w = w ∧
  (∀ n, n ≠ 0%Z →
     progress (status_output EmptyString None (Some n) w) =
       {| value := Some 0%Z; max_value := n |}).
Proof.
  repeat split; try reflexivity.
  - unfold status_output. cbn. apply window_eta.
  - intros n Hn. unfold status_output, falsy.
    rewrite (bool_decide_eq_false_2 (n = 0%Z)) by done. reflexivity.
Qed.

(** The messages that move the bar: those with "Checking file" anywhere. *)
Definition moves_bar (messages : list string) : list string :=
  List.filter (str_in "Checking file") messages.

(** [for message in messages: status_output(message)] *)
Definition report_all (messages : list string) (w : window) : window :=
  foldl (λ w message, status_output message None None w) w messages.

Lemma status_output_message (message : string) (w : window) :
  status_output message None None w =
    if bool_decide (message = EmptyString) then w
    else {| progress := if str_in "Checking file" message
                        then increment 1 (progress w) else progress w;
            status_lines := status_lines w ++ [message];
            repair_log := repair_log w ++ [message] |}.
Proof.
  unfold status_output. cbn [falsy negb].
  case_bool_decide; [apply window_eta | done].
Qed.

Lemma increment_value (bar : ProgressBar) (z : Z) :
  value bar = Some z →
  increment 1 bar = {| value := Some (z + 1)%Z; max_value := max_value bar |}.
Proof.
  intros Hv. unfold increment, update, falsy. rewrite Hv. cbn.
  case_bool_decide; [by subst z | done].
Qed.

(** X22.  Reporting a list of messages one after the other appends the
    non-empty ones, in order, to the status widget and to the repair log,
    and moves the bar by one for each message that contains "Checking file",
    wherever in the message; the maximum of the bar is left alone. *)
Theorem report_all_result (messages : list string) (w : window) (z : Z) :
  value (progress w) = Some z →
  let w' := report_all messages w in
  value (progress w') = Some (z + Z.of_nat (length (moves_bar messages)))%Z ∧
  max_value (progress w') = max_value (progress w) ∧
  repair_log w' =
    repair_log w ++ List.filter (λ m, negb (bool_decide (m = EmptyString))) messages ∧
  status_lines w' =
    status_lines w ++ List.filter (λ m, negb (bool_decide (m = EmptyString))) messages.
Proof.
  cbn zeta. unfold report_all, moves_bar. revert w z.
  induction messages as [|m messages IH]; intros w z Hz.
  - cbn. rewrite Z.add_0_r, !app_nil_r. done.
  - cbn [foldl]. rewrite status_output_message.
    case_bool_decide as Hm.
    + subst m. destruct (IH w z Hz) as (H1 & H2 & H3 & H4).
      rewrite H1, H2, H3, H4. done.
    + cbn [List.filter negb].
      rewrite (bool_decide_eq_false_2 _ Hm). cbn [negb].
      destruct (str_in "Checking file" m) eqn:Hin.
      * rewrite (increment_value _ z Hz).
        set (w1 := {| progress := _; status_lines := _; repair_log := _ |}).
        destruct (IH w1 (z + 1)%Z eq_refl) as (H1 & H2 & H3 & H4).
        rewrite H1, H2, H3, H4. unfold w1.
        cbn [progress max_value repair_log status_lines length].
        rewrite <- !app_assoc. repeat split; try done. f_equal. lia.
      * set (w1 := {| progress := _; status_lines := _; repair_log := _ |}).
        destruct (IH w1 z Hz) as (H1 & H2 & H3 & H4).
        rewrite H1, H2, H3, H4. unfold w1.
        cbn [progress max_value repair_log status_lines].
        rewrite <- !app_assoc. done.
Qed.

Lemma str_in_read_files (selection : string) :
  str_in "read files" selection = true → str_in "read file" selection = true.
Proof.
  rewrite !str_in_spec. intros (a & b & ->). by exists a, ("s" +:+ b).
Qed.

(** X23.  [file_selector] never builds the button that selects several
    files: a selection that asks for it with the words "read files" also
    holds the words "read file", which are tested first, and gets the
    button for a single file. *)
Theorem file_selector_never_several (fs : filesystem) (cwd : path)
    (selection : string) (starting_path : path) :
  (∀ r, file_selector fs cwd selection starting_path = Some r →
        browse r ≠ FilesBrowse) ∧
  (str_in "read files" selection = true →
   ∃ r, file_selector fs cwd selection starting_path = Some r ∧
        browse r = FileBrowse).
Proof.
  unfold file_selector.
  destruct (match stat fs starting_path with
            | Some (EFile _) => _ | Some EDir | Some ELocked => _ | None => _ end)
    as [initial_dir initial_file].
  split.
  - intros r Hr. destruct (str_in "read file" selection) eqn:E1;
      [by injection Hr as <-|].
    destruct (str_in "save file" selection); [by injection Hr as <-|].
    destruct (str_in "read files" selection) eqn:E3.
    + apply str_in_read_files in E3. congruence.
    + destruct (str_in "dir" selection); [by injection Hr as <- | done].
  - intros H%str_in_read_files. rewrite H. eauto.
Qed.

(** X24.  [file_selector] raises [ValueError] exactly when the selection
    holds none of the words "read file", "save file" and "dir", whatever
    the starting path is. *)
Theorem file_selector_value_error (fs : filesystem) (cwd : path)
    (selection : string) (starting_path : path) :
  file_selector fs cwd selection starting_path = None ↔
  str_in "read file" selection = false ∧
  str_in "save file" selection = false ∧
  str_in "dir" selection = false.
Proof.
  unfold file_selector.
  destruct (match stat fs starting_path with
            | Some (EFile _) => _ | Some EDir | Some ELocked => _ | None => _ end)
    as [initial_dir initial_file].
  destruct (str_in "read file" selection) eqn:E1; [split; [done | by intros [? _]]|].
  destruct (str_in "save file" selection) eqn:E2;
    [split; [done | by intros (_ & ? & _)]|].
  destruct (str_in "read files" selection) eqn:E3.
  { apply str_in_read_files in E3. congruence. }
  destruct (str_in "dir" selection); [split; [done | by intros (_ & _ & ?)] | done].
Qed.

(** X25.  [get_file_paths] is decided by the first read whose event closes
    the window ([sg.WIN_CLOSED], which is [None]), is "Quit" or is
    "start_repair".  It keeps waiting exactly as long as no read brings one
    of these events.  At the first read that does, it returns the values of
    that read with the key "process_repairs" added, whose flag is true
    exactly when the event is "start_repair", and it has closed the window
    exactly when the event is another one; when that read came with no
    values ([None]), it raises [TypeError] instead and the flag is lost. *)
Theorem get_file_paths_flag
    (reads : list (option string * option (gmap string field))) :
  (get_file_paths reads = Waiting ↔
     ∀ event values, (event, values) ∈ reads →
       event ≠ None ∧ event ≠ Some "Quit" ∧ event ≠ Some "start_repair") ∧
  (∀ before event values after,
     reads = before ++ (event, values) :: after →
     (∀ e v, (e, v) ∈ before →
        e ≠ None ∧ e ≠ Some "Quit" ∧ e ≠ Some "start_repair") →
     event = None ∨ event = Some "Quit" ∨ event = Some "start_repair" →
     let start := bool_decide (event = Some "start_repair") in
     get_file_paths reads =
       match values with
       | Some v => Returns (<["process_repairs" := Flag start]> v) (negb start)
       | None => RaisesTypeError (negb start)
       end).
Proof.
  split.
  - induction reads as [|[event values] rest IH]; cbn [get_file_paths].
    + split; [|done]. intros _ event values Hin. by apply elem_of_nil in Hin.
    + destruct event as [key|].
      * case_bool_decide as Hq; [|case_bool_decide as Hs].
        -- subst key. split; [by destruct values|].
           intros H. destruct (H (Some "Quit") values) as (_ & ? & _); [by left | done].
        -- subst key. split; [by destruct values|].
           intros H. destruct (H (Some "start_repair") values) as (_ & _ & ?);
             [by left | done].
        -- rewrite IH. split.
           ++ intros H ev vs [[= -> ->]|Hin]%elem_of_cons; [|by apply (H ev vs)].
              repeat split; congruence.
           ++ intros H ev vs Hin. apply (H ev vs). by right.
      * split; [by destruct values|].
        intros H. destruct (H None values) as (? & _); [by left | done].
  - intros before. revert reads.
    induction before as [|[e v] before IH];
      intros reads event values after -> Hbefore Hevent; cbn [app get_file_paths].
    + destruct Hevent as [->|[->| ->]]; by destruct values.
    + destruct (Hbefore e v) as (He1 & He2 & He3); [by left|].
      destruct e as [key|]; [|done].
      rewrite !bool_decide_eq_false_2 by congruence.
      apply (IH _ event values after eq_refl); [|done].
      intros e' v' Hin. apply (Hbefore e' v'). by right.
Qed.

End RepairGui.

(** * The order of the rules *)

(** One rule, then another, on the result of the first. *)
Definition then_rule (r1 r2 : repair_method) : repair_method :=
  λ dataset, let* dataset := r1 dataset in r2 dataset.

(** The elements the three rules read hold strings when present, and the
    Modality element is present. *)
Definition readable (ds : Dataset) : Prop :=
  (∃ m, ds !! "Modality" = Some (VStr m)) ∧
  text_or_absent ds "BodyPartExamined" ∧
  text_or_absent ds "OtherPatientIDs" ∧
  text_or_absent ds "InstitutionAddress".

(** What a rule does to a readable dataset: the lines it emits and the
    values it assigns, as functions of the dataset. *)
Definition blank_if (b : bool) (k : string) (ds : Dataset) : Dataset :=
  if b then <[k := VStr EmptyString]> ds else ds.

Definition characters_result (ds : Dataset) : Dataset :=
  blank_if (starts_with_slash ds "OtherPatientIDs") "OtherPatientIDs"
    (blank_if (starts_with_slash ds "BodyPartExamined") "BodyPartExamined" ds).

Definition characters_lines (ds : Dataset) : list event :=
  Status <$> (invalid_character_message <$>
    List.filter (starts_with_slash ds) ["BodyPartExamined"; "OtherPatientIDs"]).

Definition modality_text (ds : Dataset) : string :=
  match ds !! "Modality" with Some (VStr m) => m | _ => EmptyString end.

Definition ct_fires (ds : Dataset) : bool :=
  bool_decide (is_Some (ds !! "KVP")) && negb (str_in "CT" (modality_text ds)).

Definition pt_fires (ds : Dataset) : bool :=
  bool_decide (is_Some (ds !! RPIS)) && negb (str_in "PT" (modality_text ds)).

Definition modality_result (ds : Dataset) : Dataset :=
  if pt_fires ds then <["Modality" := VStr "PT"]> ds
  else if ct_fires ds then <["Modality" := VStr "CT"]> ds
  else ds.

Definition modality_lines (ds : Dataset) : list event :=
  (if ct_fires ds then [Status (modality_message (modality_text ds) "CT")] else []) ++
  (if pt_fires ds then [Status (modality_message (modality_text ds) "PT")] else []).

Definition address_fires (ds : Dataset) : bool :=
  match ds !! "InstitutionAddress" with
  | Some (VStr a) => str_in "Mississauga" a
  | _ => false
  end.

Definition address_result (ds : Dataset) : Dataset :=
  blank_if (address_fires ds) "InstitutionAddress" ds.

Definition address_lines (ds : Dataset) : list event :=
  match ds !! "InstitutionAddress" with
  | Some (VStr a) => if str_in "Mississauga" a then [Status (address_message a)] else []
  | _ => []
  end.

Lemma fix_invalid_characters_readable (ds : Dataset) :
  readable ds →
  fix_invalid_characters (Some ds) = (characters_lines ds, Ok (Some (characters_result ds))).
Proof.
  intros (_ & Hb & Ho & _).
  unfold fix_invalid_characters, characters_lines, characters_result, blank_if.
  cbn [fix_invalid_elements List.filter].
  rewrite (fix_invalid_element_text "BodyPartExamined") by done.
  destruct (starts_with_slash ds "BodyPartExamined"); unfold bind at 1;
    (rewrite (fix_invalid_element_text "OtherPatientIDs")
       by (by rewrite ?text_or_absent_insert_ne));
    rewrite ?starts_with_slash_insert_ne by done;
    by destruct (starts_with_slash ds "OtherPatientIDs").
Qed.

Lemma fix_incorrect_modality_readable (ds : Dataset) :
  readable ds →
  fix_incorrect_modality (Some ds) = (modality_lines ds, Ok (Some (modality_result ds))).
Proof.
  intros ((m & Hm) & _).
  rewrite (fix_incorrect_modality_text ds m Hm). cbn zeta.
  unfold modality_lines, modality_result, ct_fires, pt_fires, modality_text.
  by rewrite Hm.
Qed.

Lemma fix_incorrect_address_readable (ds : Dataset) :
  readable ds →
  fix_incorrect_address (Some ds) = (address_lines ds, Ok (Some (address_result ds))).
Proof.
  intros (_ & _ & _ & Ha).
  unfold address_lines, address_result, address_fires, blank_if.
  unfold text_or_absent in Ha.
  destruct (ds !! "InstitutionAddress") as [[a|l t|]|] eqn:E; [|done|done|].
  - rewrite (fix_incorrect_address_text ds a E). by destruct (str_in "Mississauga" a).
  - by rewrite (fix_incorrect_address_absent ds E).
Qed.

(** Assigning to an element leaves what the rules read of the others. *)
Lemma readable_insert (ds : Dataset) (k s : string) :
  readable ds → readable (<[k := VStr s]> ds).
Proof.
  intros ((m & Hm) & Hb & Ho & Ha). unfold readable.
  repeat split.
  - destruct (decide (k = "Modality")) as [->|Hne].
    + exists s. by rewrite lookup_insert_eq.
    + exists m. by rewrite lookup_insert_ne.
  - destruct (decide (k = "BodyPartExamined")) as [->|Hne];
      [apply text_or_absent_insert_eq | by rewrite text_or_absent_insert_ne].
  - destruct (decide (k = "OtherPatientIDs")) as [->|Hne];
      [apply text_or_absent_insert_eq | by rewrite text_or_absent_insert_ne].
  - destruct (decide (k = "InstitutionAddress")) as [->|Hne];
      [apply text_or_absent_insert_eq | by rewrite text_or_absent_insert_ne].
Qed.

Lemma readable_characters (ds : Dataset) : readable ds → readable (characters_result ds).
Proof.
  intros H. unfold characters_result, blank_if.
  repeat case_match; repeat apply readable_insert; done.
Qed.

Lemma readable_modality (ds : Dataset) : readable ds → readable (modality_result ds).
Proof.
  intros H. unfold modality_result.
  repeat case_match; repeat apply readable_insert; done.
Qed.

Lemma readable_address (ds : Dataset) : readable ds → readable (address_result ds).
Proof.
  intros H. unfold address_result, blank_if.
  repeat case_match; repeat apply readable_insert; done.
Qed.

Lemma then_rule_run (r1 r2 : repair_method) (ds d1 d2 : Dataset) (t1 t2 : list event) :
  r1 (Some ds) = (t1, Ok (Some d1)) → r2 (Some d1) = (t2, Ok (Some d2)) →
  then_rule r1 r2 (Some ds) = (t1 ++ t2, Ok (Some d2)).
Proof. intros H1 H2. unfold then_rule, bind. by rewrite H1, H2. Qed.

(** What a rule reads is not changed by an assignment to another element. *)
Lemma modality_reads_insert (ds : Dataset) (k : string) (v : value) :
  k ≠ "Modality" → k ≠ "KVP" → k ≠ RPIS →
  modality_text (<[k := v]> ds) = modality_text ds ∧
  ct_fires (<[k := v]> ds) = ct_fires ds ∧
  pt_fires (<[k := v]> ds) = pt_fires ds.
Proof.
  intros Hm Hk Hr. unfold ct_fires, pt_fires, modality_text.
  by rewrite !lookup_insert_ne.
Qed.

Lemma modality_reads_blank_if (b : bool) (ds : Dataset) (k : string) :
  k ≠ "Modality" → k ≠ "KVP" → k ≠ RPIS →
  modality_result (blank_if b k ds) = blank_if b k (modality_result ds) ∧
  modality_lines (blank_if b k ds) = modality_lines ds.
Proof.
  intros Hm Hk Hr. unfold blank_if. destruct b; [|done].
  unfold modality_result, modality_lines.
  destruct (modality_reads_insert ds k (VStr EmptyString) Hm Hk Hr) as (-> & -> & ->).
  split; [|done].
  destruct (pt_fires ds), (ct_fires ds); try done; by apply insert_insert_ne.
Qed.

Lemma slash_modality_result (ds : Dataset) (k : string) :
  k ≠ "Modality" →
  starts_with_slash (modality_result ds) k = starts_with_slash ds k.
Proof.
  intros Hk. unfold modality_result.
  repeat case_match; by rewrite ?starts_with_slash_insert_ne.
Qed.

Lemma address_reads_insert (ds : Dataset) (k : string) (v : value) :
  k ≠ "InstitutionAddress" →
  address_fires (<[k := v]> ds) = address_fires ds ∧
  address_lines (<[k := v]> ds) = address_lines ds.
Proof.
  intros Hk. unfold address_fires, address_lines. by rewrite lookup_insert_ne.
Qed.

Lemma address_reads_blank_if (b : bool) (ds : Dataset) (k : string) :
  k ≠ "InstitutionAddress" →
  address_result (blank_if b k ds) = blank_if b k (address_result ds) ∧
  address_lines (blank_if b k ds) = address_lines ds.
Proof.
  intros Hk. unfold blank_if at 1 3. destruct b; [|done].
  unfold address_result, blank_if.
  destruct (address_reads_insert ds k (VStr EmptyString) Hk) as (-> & ->).
  split; [|done]. destruct (address_fires ds); [|done]. by apply insert_insert_ne.
Qed.

Lemma slash_address_result (ds : Dataset) (k : string) :
  k ≠ "InstitutionAddress" →
  starts_with_slash (address_result ds) k = starts_with_slash ds k.
Proof.
  intros Hk. unfold address_result, blank_if.
  case_match; by rewrite ?starts_with_slash_insert_ne.
Qed.

Lemma address_modality_result (ds : Dataset) :
  address_result (modality_result ds) = modality_result (address_result ds) ∧
  address_lines (modality_result ds) = address_lines ds ∧
  modality_lines (address_result ds) = modality_lines ds.
Proof.
  destruct (modality_reads_blank_if (address_fires ds) ds "InstitutionAddress")
    as [Hres Hlines]; [done..|].
  fold (address_result ds) in Hres, Hlines. rewrite Hres, Hlines.
  assert (address_fires (modality_result ds) = address_fires ds ∧
          address_lines (modality_result ds) = address_lines ds) as [Hf Hl].
  { unfold modality_result.
    repeat case_match; try done; by apply address_reads_insert. }
  unfold address_result at 1. by rewrite Hf, Hl.
Qed.

Lemma characters_modality_result (ds : Dataset) :
  modality_result (characters_result ds) = characters_result (modality_result ds) ∧
  modality_lines (characters_result ds) = modality_lines ds ∧
  characters_lines (modality_result ds) = characters_lines ds.
Proof.
  unfold characters_result, characters_lines. cbn [List.filter].
  rewrite !slash_modality_result by done.
  set (bB := starts_with_slash ds "BodyPartExamined").
  set (bO := starts_with_slash ds "OtherPatientIDs").
  destruct (modality_reads_blank_if bO (blank_if bB "BodyPartExamined" ds)
              "OtherPatientIDs") as [E1 L1]; [done..|].
  destruct (modality_reads_blank_if bB ds "BodyPartExamined") as [E2 L2]; [done..|].
  by rewrite E1, L1, E2, L2.
Qed.

Lemma characters_address_result (ds : Dataset) :
  address_result (characters_result ds) = characters_result (address_result ds) ∧
  address_lines (characters_result ds) = address_lines ds ∧
  characters_lines (address_result ds) = characters_lines ds.
Proof.
  unfold characters_result, characters_lines. cbn [List.filter].
  rewrite !slash_address_result by done.
  set (bB := starts_with_slash ds "BodyPartExamined").
  set (bO := starts_with_slash ds "OtherPatientIDs").
  destruct (address_reads_blank_if bO (blank_if bB "BodyPartExamined" ds)
              "OtherPatientIDs") as [E1 L1]; [done|].
  destruct (address_reads_blank_if bB ds "BodyPartExamined") as [E2 L2]; [done|].
  by rewrite E1, L1, E2, L2.
Qed.

(** X26.  On a dataset in which the rules find what they read (Modality
    present, strings in the elements they inspect), the order of two
    different rules of the notebook's list does not matter: either order
    returns the same dataset, and each rule emits in either order the lines
    it emits when run alone. *)
Theorem repair_methods_commute (ds : Dataset) :
  readable ds →
  let commute (r1 r2 : repair_method) :=
    ∃ final,
      then_rule r1 r2 (Some ds) =
        ((r1 (Some ds)).1 ++ (r2 (Some ds)).1, Ok (Some final)) ∧
      then_rule r2 r1 (Some ds) =
        ((r2 (Some ds)).1 ++ (r1 (Some ds)).1, Ok (Some final)) in
  commute fix_invalid_characters fix_incorrect_modality ∧
  commute fix_invalid_characters fix_incorrect_address ∧
  commute fix_incorrect_modality fix_incorrect_address.
Proof.
  intros Hds. cbn zeta.
  pose proof (readable_characters ds Hds) as HrA.
  pose proof (readable_modality ds Hds) as HrB.
  pose proof (readable_address ds Hds) as HrC.
  pose proof (fix_invalid_characters_readable ds Hds) as HA.
  pose proof (fix_incorrect_modality_readable ds Hds) as HB.
  pose proof (fix_incorrect_address_readable ds Hds) as HC.
  pose proof (fix_incorrect_modality_readable _ HrA) as HAB.
  pose proof (fix_incorrect_address_readable _ HrA) as HAC.
  pose proof (fix_invalid_characters_readable _ HrB) as HBA.
  pose proof (fix_incorrect_address_readable _ HrB) as HBC.
  pose proof (fix_invalid_characters_readable _ HrC) as HCA.
  pose proof (fix_incorrect_modality_readable _ HrC) as HCB.
  destruct (characters_modality_result ds) as (EAB & LAB & LBA).
  destruct (characters_address_result ds) as (EAC & LAC & LCA).
  destruct (address_modality_result ds) as (ECB & LBC & LCB).
  rewrite HA, HB, HC. cbn [fst].
  split; [|split]; eexists.
  - rewrite (then_rule_run _ _ _ _ _ _ _ HA HAB), (then_rule_run _ _ _ _ _ _ _ HB HBA).
    by rewrite EAB, LAB, LBA.
  - rewrite (then_rule_run _ _ _ _ _ _ _ HA HAC), (then_rule_run _ _ _ _ _ _ _ HC HCA).
    by rewrite EAC, LAC, LCA.
  - rewrite (then_rule_run _ _ _ _ _ _ _ HB HBC), (then_rule_run _ _ _ _ _ _ _ HC HCB).
    by rewrite ECB, LBC, LCB.
Qed.

(** * The further properties at concrete datasets and directories *)

Lemma perform_repairs_twice_witness :
  let first := perform_repairs one_file ["in"] ["out"] repair_methods in
  let fs1 := disk_after one_file first.1 in
  let second := perform_repairs fs1 ["in"] ["out"] repair_methods in
  second = first ∧ disk_after fs1 second.1 = fs1.
Proof.
  apply (perform_repairs_twice one_file ["in"] ["out"] repair_methods).
  - intros method Hin d. by apply repair_methods_status_lines.
  - assert (Forall (λ w : path * Dataset, head w.1 = Some "out")
              (files_saved (perform_repairs one_file ["in"] ["out"] repair_methods).1))
      as Hsaved by compute_done.
    intros p ds rest Hin Heq.
    rewrite Forall_forall in Hsaved. specialize (Hsaved _ Hin).
    subst p. discriminate Hsaved.
Defined.

Lemma repair_methods_keep_elements_witness :
  dom (<["BodyPartExamined" := VStr EmptyString]> escaped_body_part) =
    dom escaped_body_part ∧
  (dom (<["Modality" := VStr "PT"]> nm_with_both) = dom nm_with_both ∧
   dom (<["Modality" := VStr "CT"]> several_modalities) = dom several_modalities) ∧
  dom (<["InstitutionAddress" := VStr EmptyString]> mississauga_address) =
    dom mississauga_address.
Proof.
  split; [|split; [split|]].
  - apply (proj1 (repair_methods_keep_elements escaped_body_part))
      with (tr := [Status (invalid_character_message "BodyPartExamined")]).
    compute_done.
  - apply (proj1 (proj2 (repair_methods_keep_elements nm_with_both)))
      with (tr := [Status (modality_message "NM" "CT");
                   Status (modality_message "NM" "PT")]).
    compute_done.
  - apply (proj1 (proj2 (repair_methods_keep_elements several_modalities)))
      with (tr := [Status (modality_message "['NM', 'PT']" "CT")]).
    compute_done.
  - apply (proj2 (proj2 (repair_methods_keep_elements mississauga_address)))
      with (tr := [Status (address_message "2200 Eglinton Ave W, Mississauga, ON")]).
    compute_done.
Defined.

Lemma fix_invalid_characters_idempotent_witness :
  fix_invalid_characters
    (Some (<["BodyPartExamined" := VStr EmptyString]> escaped_body_part)) =
  ([], Ok (Some (<["BodyPartExamined" := VStr EmptyString]> escaped_body_part))).
Proof.
  apply (fix_invalid_characters_idempotent escaped_body_part _
           [Status (invalid_character_message "BodyPartExamined")]).
  compute_done.
Defined.

Lemma fix_incorrect_address_idempotent_witness :
  fix_incorrect_address
    (Some (<["InstitutionAddress" := VStr EmptyString]> mississauga_address)) =
  ([], Ok (Some (<["InstitutionAddress" := VStr EmptyString]> mississauga_address))).
Proof.
  apply (fix_incorrect_address_idempotent mississauga_address _
           [Status (address_message "2200 Eglinton Ave W, Mississauga, ON")]).
  compute_done.
Defined.

Lemma fix_incorrect_modality_idempotent_witness :
  fix_incorrect_modality (Some (<["Modality" := VStr "CT"]> mislabelled_ct)) =
    ([], Ok (Some (<["Modality" := VStr "CT"]> mislabelled_ct))) ∧
  fix_incorrect_modality (Some (<["Modality" := VStr "CT"]> several_modalities)) =
    ([], Ok (Some (<["Modality" := VStr "CT"]> several_modalities))).
Proof.
  split.
  - apply (fix_incorrect_modality_idempotent mislabelled_ct _
             [Status (modality_message "NM" "CT")]).
    + intros [_ [v Hv]]. vm_compute in Hv. discriminate.
    + compute_done.
  - apply (fix_incorrect_modality_idempotent several_modalities _
             [Status (modality_message "['NM', 'PT']" "CT")]).
    + intros [_ [v Hv]]. vm_compute in Hv. discriminate.
    + compute_done.
Defined.

Lemma fix_incorrect_modality_alternates_witness :
  ∃ t1 t2 t3 d1 d2,
    fix_incorrect_modality (Some nm_with_both) = (t1, Ok (Some d1)) ∧
    fix_incorrect_modality (Some d1) = (t2, Ok (Some d2)) ∧
    fix_incorrect_modality (Some d2) = (t3, Ok (Some d1)) ∧
    d1 ≠ d2 ∧ t1 ≠ [] ∧ t2 ≠ [] ∧ t3 ≠ [].
Proof.
  apply (fix_incorrect_modality_alternates nm_with_both "NM").
  - reflexivity.
  - by eexists.
  - by eexists.
  - reflexivity.
Defined.

Lemma build_dicom_file_name_inj_witness :
  "CT" = "CT" ∧ "1.2.840.5" = "1.2.840.5".
Proof.
  apply (build_dicom_file_name_inj plain_ct (<["PatientID" := VStr "P-17"]> plain_ct)
           "CT" "CT" "1.2.840.5" "1.2.840.5" "CT1.2.840.5.dcm"); reflexivity.
Defined.


Lemma apply_repairs_notebook_list_witness :
  ∃ tr d1 d2 final m',
    apply_repairs one_file repair_methods ["out"] (Some mislabelled_ct) =
      (tr, Ok (Some final)) ∧
    final !! "Modality" = Some (VStr m') ∧
    final !! "SOPInstanceUID" = Some (VStr "1.2.840.3") ∧
    files_saved tr =
      [ (joinpath ["out"] ("NM" +:+ "1.2.840.3" +:+ ".dcm"), d1);
        (joinpath ["out"] (m' +:+ "1.2.840.3" +:+ ".dcm"), d2);
        (joinpath ["out"] (m' +:+ "1.2.840.3" +:+ ".dcm"), final) ] ∧
    ∀ out, write_all out tr !! (joinpath ["out"] (m' +:+ "1.2.840.3" +:+ ".dcm")) =
             Some final.
Proof.
  apply (apply_repairs_notebook_list one_file mislabelled_ct "NM" "1.2.840.3" ["out"]);
    try compute_done.
  intros m' Hm'.
  repeat (apply elem_of_cons in Hm' as [->|Hm']); try compute_done.
  by apply elem_of_nil in Hm'.
Defined.

Lemma apply_repairs_rule_after_None_witness :
  apply_repairs two_files [fix_incorrect_modality; fix_incorrect_address] ["out"]
    (Some no_modality) =
  ([Status "Modality element not found. File not used."], Raise TypeError).
Proof.
  apply (apply_repairs_rule_after_None two_files fix_incorrect_modality
           fix_incorrect_address [] ["out"] (Some no_modality)).
  - compute_done.
  - unfold repair_methods. do 2 right. left.
Defined.

Lemma apply_repairs_without_modality_witness :
  ∃ tr dA,
    fix_invalid_characters (Some no_modality) = (tr, Ok (Some dA)) ∧
    apply_repairs two_files repair_methods ["out"] (Some no_modality) =
      (tr, Raise KeyError) ∧
    files_saved tr = [].
Proof.
  apply (apply_repairs_without_modality two_files no_modality ["out"]);
    compute_done.
Defined.

(** A directory with a subdirectory, and an output directory. *)
Definition nested_directory : filesystem :=
  [ (["data"], EDir);
    (["data"; "IM0001"], EFile (Dicom plain_ct));
    (["data"; "series"], EDir);
    (["data"; "series"; "scan.dcm"], EFile (Dicom plain_ct));
    (["data"; "series"; "readme.txt"], EFile NotDicom);
    (["elsewhere"; "other.dcm"], EFile (Dicom plain_ct));
    (["out"], EDir) ].



Lemma get_dicom_images_flat_reads_witness :
  let run := get_dicom_images export_directory ["data"] false (λ _, ret tt) in
  (∀ p, p ∈ files_read run.1 →
     is_file export_directory p = true ∧ p ∈ export_directory.*1 ∧
     ∃ n, p = ["data"] ++ [n] ∧ str_in "." n = true) ∧
  (run.2 = Ok tt →
     ∀ n, is_file export_directory (["data"] ++ [n]) = true →
          ["data"] ++ [n] ∈ export_directory.*1 →
          str_in "." n = true → ["data"] ++ [n] ∈ files_read run.1).
Proof.
  apply (get_dicom_images_flat_reads export_directory ["data"] (λ _, ret tt)).
  reflexivity.
Defined.

Lemma get_dicom_images_unreadable_witness :
  get_dicom_images mixed_directory ["in"] true (λ _, ret tt) =
    ((for_each [["in"; "notes.txt"]] (check_file mixed_directory (λ _, ret tt))).1 ++
       [Status ("Checking file " +:+ name ["in"; "locked.dcm"]);
        Dcmread ["in"; "locked.dcm"]],
     Raise PermissionError).
Proof.
  apply (get_dicom_images_unreadable mixed_directory ["in"] true (λ _, ret tt)
           [["in"; "notes.txt"]] [["in"; "empty.dcm"]] ["in"; "locked.dcm"]);
    reflexivity.
Defined.

Lemma scan_headers_rows_witness :
  match (scan_headers "120.0" nested_directory ["data"] ["KVP"]).2 with
  | Ok rows =>
      rows = header_data "120.0" (image_id_tags ++ ["KVP"]) <$>
               omap (yielded nested_directory) (glob nested_directory ["data"] AllBelow)
  | Raise _ => False
  end.
Proof.
  destruct (scan_headers "120.0" nested_directory ["data"] ["KVP"])
    as [tr [rows|e]] eqn:Hrun.
  - exact (scan_headers_rows "120.0" nested_directory ["data"] ["KVP"] tr rows Hrun).
  - apply (f_equal (λ run, match run.2 with Ok _ => true | Raise _ => false end)) in Hrun.
    vm_compute in Hrun. discriminate.
Defined.

Lemma header_data_cells_witness :
  header_data "120.0" image_id_tags plain_ct !! "StudyID" = Some "None" ∧
  header_data "120.0" image_id_tags plain_ct !! "Modality" = Some "CT" ∧
  header_data "120.0" image_id_tags plain_ct !! "KVP" = None.
Proof.
  split; [|split].
  - apply (proj1 (proj2 (proj2 (header_data_cells "120.0" image_id_tags plain_ct
                                  "StudyID")))).
    + unfold image_id_tags. left.
    + reflexivity.
  - apply (proj2 (proj2 (proj2 (header_data_cells "120.0" image_id_tags plain_ct
                                  "Modality")))).
    + unfold image_id_tags. do 4 right. left.
    + reflexivity.
  - apply (proj1 (proj2 (header_data_cells "120.0" image_id_tags plain_ct "KVP"))).
    unfold image_id_tags. intros Hin.
    repeat (apply elem_of_cons in Hin as [Hin|Hin]; [discriminate|]).
    by apply elem_of_nil in Hin.
Defined.

Lemma perform_repairs_checks_counted_witness :
  let tr := (perform_repairs nested_directory ["data"] ["out"] repair_methods).1 in
  Counter (stats_log (repair_log tr)) "Checking file" = length (files_read tr).
Proof.
  apply (perform_repairs_checks_counted nested_directory ["data"] ["out"] repair_methods).
  - done.
  - intros p Hp. unfold nested_directory in Hp. cbn in Hp.
    repeat (apply elem_of_cons in Hp as [->|Hp]; [reflexivity|]).
    by apply elem_of_nil in Hp.
Defined.

Lemma repair_methods_commute_witness :
  let commute (r1 r2 : repair_method) :=
    ∃ final,
      then_rule r1 r2 (Some escaped_body_part) =
        ((r1 (Some escaped_body_part)).1 ++ (r2 (Some escaped_body_part)).1,
         Ok (Some final)) ∧
      then_rule r2 r1 (Some escaped_body_part) =
        ((r2 (Some escaped_body_part)).1 ++ (r1 (Some escaped_body_part)).1,
         Ok (Some final)) in
  commute fix_invalid_characters fix_incorrect_modality ∧
  commute fix_invalid_characters fix_incorrect_address ∧
  commute fix_incorrect_modality fix_incorrect_address.
Proof.
  apply (repair_methods_commute escaped_body_part).
  split; [by exists "PT" | repeat split; compute_done].
Defined.

Lemma drop_name_no_line_break_witness :
  String.length (drop_name ("Mismatched" +:+ String CR (String LF "Address"))) =
  String.length ("Mismatched" +:+ String CR (String LF "Address")).
Proof.
  apply (proj2 (drop_name_no_line_break
                  ("Mismatched" +:+ String CR (String LF "Address")))).
  reflexivity.
Defined.

Module RepairGuiWitness.
Import RepairGui.

Definition fresh_window : window :=
  {| progress := {| value := Some 0%Z; max_value := 100 |};
     status_lines := []; repair_log := [] |}.

Lemma status_output_zero_witness :
  progress (status_output EmptyString None (Some 12%Z) fresh_window) =
    {| value := Some 0%Z; max_value := 12 |}.
Proof.
  apply (proj2 (proj2 (proj2 (status_output_zero EmptyString None None fresh_window)))).
  discriminate.
Defined.

Lemma report_all_result_witness :
  let messages := ["Checking file a.dcm"; EmptyString;
                   "a.dcm did not contain valid DICOM data.  Skipped.";
                   "Checking file b.dcm"] in
  let w' := report_all messages fresh_window in
  value (progress w') = Some (0 + Z.of_nat (length (moves_bar messages)))%Z ∧
  max_value (progress w') = max_value (progress fresh_window) ∧
  RepairGui.repair_log w' =
    RepairGui.repair_log fresh_window ++
    List.filter (λ m, negb (bool_decide (m = EmptyString))) messages ∧
  status_lines w' =
    status_lines fresh_window ++
    List.filter (λ m, negb (bool_decide (m = EmptyString))) messages.
Proof.
  apply (report_all_result _ fresh_window 0%Z). reflexivity.
Defined.

Lemma file_selector_never_several_witness :
  ∃ r, file_selector nested_directory ["data"] "read files" ["data"; "series"] = Some r ∧
       browse r = FileBrowse.
Proof.
  apply (proj2 (file_selector_never_several nested_directory ["data"] "read files"
                  ["data"; "series"])).
  reflexivity.
Defined.

Lemma get_file_paths_flag_witness :
  get_file_paths [ (Some "input_path", Some ∅); (Some "Quit", Some ∅);
                   (Some "start_repair", Some ∅) ] =
    Returns (<["process_repairs" := Flag false]> ∅) true ∧
  get_file_paths [ (Some "input_path", Some ∅); (Some "start_repair", None) ] =
    RaisesTypeError false.
Proof.
  split.
  - apply (proj2 (get_file_paths_flag _) [(Some "input_path", Some ∅)]
             (Some "Quit") (Some ∅) [(Some "start_repair", Some ∅)]).
    + reflexivity.
    + intros e v Hin. apply list_elem_of_singleton in Hin. injection Hin as -> ->.
      by repeat split.
    + right. by left.
  - apply (proj2 (get_file_paths_flag _) [(Some "input_path", Some ∅)]
             (Some "start_repair") None []).
    + reflexivity.
    + intros e v Hin. apply list_elem_of_singleton in Hin. injection Hin as -> ->.
      by repeat split.
    + right. by right.
Defined.

End RepairGuiWitness.
